(** * auto_fill_l10n: risk filter, placeholder masking and the fill pass

    A shallow embedding of [tools/auto_fill_l10n.py].  Python strings are
    sequences of Unicode code points, the JSON document is an insertion-ordered
    dictionary, and the translation endpoint is an oracle indexed by the
    number of requests issued so far. *)

From Stdlib Require Import ZArith NArith Ascii String DecimalNat.
From stdpp Require Import base list gmap.

Local Open Scope N_scope.

(** ** Strings *)

(** A character is a code point; [str] is Python's [str]. *)
Abbreviation char := N (only parsing).
Abbreviation str := (list N) (only parsing).

(** ASCII literals of the source, as code points. *)
Definition py (s : String.string) : str :=
  List.map N_of_ascii (String.list_ascii_of_string s).
Arguments py s%_string.

Definition in_range (lo hi c : char) : bool := (lo <=? c) && (c <=? hi).

Definition is_ascii_upper (c : char) : bool := in_range 65 90 c.
Definition is_ascii_lower (c : char) : bool := in_range 97 122 c.
Definition is_ascii_digit (c : char) : bool := in_range 48 57 c.
Definition is_ascii_letter (c : char) : bool := is_ascii_upper c || is_ascii_lower c.
Definition is_ascii_alnum (c : char) : bool := is_ascii_letter c || is_ascii_digit c.

(** [str.isspace] on one character, the set [str.strip()] removes:
    the ASCII table of the interpreter and the Unicode white-space
    code points beyond it. *)
Definition is_space (c : char) : bool :=
  in_range 9 13 c || in_range 28 32 c || (c =? 133) || (c =? 160)
  || (c =? 5760) || in_range 8192 8202 c || (c =? 8232) || (c =? 8233)
  || (c =? 8239) || (c =? 8287) || (c =? 12288).

Fixpoint lstrip (s : str) : str :=
  match s with
  | c :: s' => if is_space c then lstrip s' else s
  | [] => []
  end.
Definition rstrip (s : str) : str := rev (lstrip (rev s)).
Definition strip (s : str) : str := lstrip (rstrip s).

(** [s.startswith(p)] *)
Fixpoint startswith (p s : str) : bool :=
  match p, s with
  | [], _ => true
  | _ :: _, [] => false
  | a :: p', b :: s' => (a =? b) && startswith p' s'
  end.

(** [p in s] *)
Fixpoint contains (p s : str) : bool :=
  startswith p s || match s with [] => false | _ :: s' => contains p s' end.

(** Greedy run of characters satisfying [f], and what follows it. *)
Fixpoint span (f : char -> bool) (s : str) : str * str :=
  match s with
  | c :: s' => if f c then let '(a, b) := span f s' in (c :: a, b) else ([], s)
  | [] => ([], [])
  end.

(** [re.search] of a pattern that is tried at every position. *)
Fixpoint search_at (here : str -> bool) (s : str) : bool :=
  here s || match s with [] => false | _ :: s' => search_at here s' end.

(** [s.replace(old, new)]: occurrences are taken left to right and do not
    overlap.  The recursion is on the number of characters left to scan. *)
Fixpoint replace_go (fuel : nat) (old new s : str) : str :=
  match fuel with
  | O => s
  | S fuel' =>
      match s with
      | [] => []
      | c :: s' =>
          if startswith old s
          then new ++ replace_go fuel' old new (drop (length old) s)
          else c :: replace_go fuel' old new s'
      end
  end.

Definition replace (old new s : str) : str :=
  match old with
  | [] => new ++ flat_map (fun c => c :: new) s
  | _ :: _ => replace_go (length s) old new s
  end.

(** [str(n)] for a non-negative integer. *)
Fixpoint uint_chars (d : Decimal.uint) : str :=
  match d with
  | Decimal.Nil => []
  | Decimal.D0 d => 48 :: uint_chars d
  | Decimal.D1 d => 49 :: uint_chars d
  | Decimal.D2 d => 50 :: uint_chars d
  | Decimal.D3 d => 51 :: uint_chars d
  | Decimal.D4 d => 52 :: uint_chars d
  | Decimal.D5 d => 53 :: uint_chars d
  | Decimal.D6 d => 54 :: uint_chars d
  | Decimal.D7 d => 55 :: uint_chars d
  | Decimal.D8 d => 56 :: uint_chars d
  | Decimal.D9 d => 57 :: uint_chars d
  end.

Definition str_of_nat (n : nat) : str := uint_chars (Nat.to_uint n).

(** ** Character classes and patterns *)

Section Text.

(** The interpreter's Unicode tables beyond ASCII: category Nd (the
    non-ASCII part of the pattern class \d) and [str.isalnum] (the
    non-ASCII part of \w).  Below 128 both classes are fixed by ASCII. *)
Variable unicode_decimal : char -> bool.
Variable unicode_alnum : char -> bool.

(** \d *)
Definition is_digit (c : char) : bool :=
  if c <? 128 then is_ascii_digit c else unicode_decimal c.

(** \w *)
Definition is_word (c : char) : bool :=
  if c <? 128 then is_ascii_alnum c || (c =? 95) else unicode_alnum c.

(** [^cls+$] under [fullmatch]: a non-empty string of [cls] only. *)
Definition fullmatch_plus (cls : char -> bool) (t : str) : bool :=
  match t with
  | [] => false
  | _ :: _ => forallb cls t
  end.

(** [$]: the end of the string, or just before a newline that ends it. *)
Definition at_dollar (s : str) : bool :=
  match s with
  | [] => true
  | [c] => c =? 10
  | _ => false
  end.

(** _RE_IDENTIFIER = ^[a-z0-9_.:/\\-]+$ *)
Definition identifier_char (c : char) : bool :=
  is_ascii_lower c || is_ascii_digit c || (c =? 95) || (c =? 46)
  || (c =? 58) || (c =? 47) || (c =? 92) || (c =? 45).
Definition _RE_IDENTIFIER_fullmatch (t : str) : bool :=
  fullmatch_plus identifier_char t.

(** _RE_FILELIKE = [\\/].+\.[A-Za-z0-9]{1,6}$ *)
Definition extension_end (s : str) : bool :=
  let '(e, tl) := span is_ascii_alnum s in
  (1 <=? length e)%nat && (length e <=? 6)%nat && at_dollar tl.
Fixpoint dot_extension (s : str) : bool :=
  match s with
  | [] => false
  | c :: s' =>
      ((c =? 46) && extension_end s') || (negb (c =? 10) && dot_extension s')
  end.
Definition filelike_here (s : str) : bool :=
  match s with
  | c :: d :: s' =>
      ((c =? 92) || (c =? 47)) && negb (d =? 10) && dot_extension s'
  | _ => false
  end.
Definition _RE_FILELIKE_search (t : str) : bool := search_at filelike_here t.

(** _RE_DEBUG_FMT = \{[^}]*[:?!][^}]*\} *)
Definition debug_fmt_here (s : str) : bool :=
  match s with
  | c :: s' =>
      (c =? 123)
      && (let '(body, tl) := span (fun x => negb (x =? 125)) s' in
          existsb (fun x => (x =? 58) || (x =? 63) || (x =? 33)) body
          && match tl with [] => false | _ :: _ => true end)
  | [] => false
  end.
Definition _RE_DEBUG_FMT_search (t : str) : bool := search_at debug_fmt_here t.

(** _RE_CAMEL_NO_SPACE = ^[A-Za-z0-9_]+$ *)
Definition _RE_CAMEL_NO_SPACE_fullmatch (t : str) : bool :=
  fullmatch_plus (fun c => is_ascii_alnum c || (c =? 95)) t.

(** _RE_PUNCT_ONLY = ^\W+$ *)
Definition _RE_PUNCT_ONLY_fullmatch (t : str) : bool :=
  fullmatch_plus (fun c => negb (is_word c)) t.

(** _RE_NUMBER_ONLY = ^\d+(?:\.\d+)?$ *)
Definition _RE_NUMBER_ONLY_fullmatch (t : str) : bool :=
  let '(a, r) := span is_digit t in
  match a with
  | [] => false
  | _ :: _ =>
      match r with
      | [] => true
      | c :: r' => (c =? 46) && fullmatch_plus is_digit r'
      end
  end.

(** ** Risk classification *)

Definition _uppercase_start (s : str) : bool :=
  match lstrip s with
  | [] => false
  | c :: _ => is_ascii_upper c
  end.

Definition _contains_letters (s : str) : bool := existsb is_ascii_letter s.

Definition _is_high_risk (text : str) : bool :=
  let t := strip text in
  if bool_decide (t = []) then true
  else if (180 <? length t)%nat then true
  else if contains (py "://") t || startswith (py "mailto:") t then true
  else if _RE_FILELIKE_search t then true
  else if _RE_IDENTIFIER_fullmatch t then true
  else if existsb (fun x => contains x t) [py "::"; py "->"; py "=>"] then true
  else if _RE_DEBUG_FMT_search t then true
  else if _RE_PUNCT_ONLY_fullmatch t || _RE_NUMBER_ONLY_fullmatch t then true
  else if negb (contains (py " ") t) && _RE_CAMEL_NO_SPACE_fullmatch t
          && existsb is_ascii_lower t && existsb is_ascii_upper t then true
  else false.

Definition SAFE_SINGLE_WORDS : list str :=
  [py "OK"; py "Ok"; py "Cancel"; py "Search"; py "Find"; py "Replace";
   py "Preferences"; py "Help"; py "About"; py "Yes"; py "No"].

(** ** Placeholder masking *)

(** The token [f"__PH{i}__"]. *)
Definition token (i : nat) : str := py "__PH" ++ str_of_nat i ++ py "__".

(** \d*\$?[a-zA-Z], after the percent sign *)
Definition percent_tail (s : str) : option (str * str) :=
  let '(ds, r1) := span is_digit s in
  let '(dollar, r2) :=
    match r1 with
    | c :: r => if c =? 36 then ([c], r) else ([], r1)
    | [] => ([], r1)
    end in
  match r2 with
  | l :: r3 => if is_ascii_letter l then Some (ds ++ dollar ++ [l], r3) else None
  | [] => None
  end.

(** One match of
    _RE_PLACEHOLDERS = (\{[^}]*\}|%\d*\$?[a-zA-Z]|\$\{[^}]+\})
    at the head of [s]: the matched text and the rest of the string. *)
Definition match_placeholder (s : str) : option (str * str) :=
  match s with
  | [] => None
  | c :: r =>
      if c =? 123 then
        let '(body, tl) := span (fun x => negb (x =? 125)) r in
        match tl with
        | close :: tl' => Some (c :: body ++ [close], tl')
        | [] => None
        end
      else if c =? 37 then
        match percent_tail r with
        | Some (m, rest) => Some (c :: m, rest)
        | None => None
        end
      else if c =? 36 then
        match r with
        | open :: r1 =>
            if open =? 123 then
              let '(body, tl) := span (fun x => negb (x =? 125)) r1 in
              match body, tl with
              | _ :: _, close :: tl' => Some (c :: open :: body ++ [close], tl')
              | _, _ => None
              end
            else None
        | [] => None
        end
      else None
  end.

(** [_RE_PLACEHOLDERS.sub(repl, text)] with [repl] appending the match to
    [placeholders] and returning the token of its index. *)
Fixpoint mask_go (fuel : nat) (s : str) (placeholders : list str)
  : str * list str :=
  match fuel with
  | O => (s, placeholders)
  | S fuel' =>
      match s with
      | [] => ([], placeholders)
      | c :: s' =>
          match match_placeholder s with
          | Some (m, rest) =>
              let placeholders' := placeholders ++ [m] in
              let '(out, phs) := mask_go fuel' rest placeholders' in
              (token (length placeholders' - 1) ++ out, phs)
          | None =>
              let '(out, phs) := mask_go fuel' s' placeholders in
              (c :: out, phs)
          end
      end
  end.

Definition _mask_placeholders (text : str) : str * list str :=
  mask_go (length text) text [].

(** The loop of [_unmask_placeholders] from index [i] on, then the final
    check that no token prefix is left. *)
Fixpoint unmask_from (i : nat) (placeholders : list str) (text out : str)
  : bool * str :=
  match placeholders with
  | [] => if contains (py "__PH") out then (false, out) else (true, out)
  | ph :: rest =>
      if negb (contains (token i) out) then (false, text)
      else unmask_from (S i) rest text (replace (token i) ph out)
  end.

Definition _unmask_placeholders (text : str) (placeholders : list str)
  : bool * str :=
  unmask_from 0 placeholders text text.

(** [re.search(r"[一-鿿]", s)] *)
Definition has_chinese (s : str) : bool := existsb (in_range 19968 40959) s.

End Text.

(** ** Texts and tokens *)

(** A text in which nothing reads like a token: the token prefix does not
    occur, and neither do the letters PH followed by a digit. *)
Definition token_free (s : str) : Prop :=
  (forall l r, s <> l ++ 95%N :: 95%N :: 80%N :: 72%N :: r)
  /\ (forall l d r, is_ascii_digit d = true -> s <> l ++ 80%N :: 72%N :: d :: r).

(** The same as a test: [PH_digit_here] is the pattern PH[0-9] at the head
    of a string. *)
Definition PH_digit_here (t : str) : bool :=
  match t with
  | p :: h :: d :: _ => (p =? 80)%N && (h =? 72)%N && is_ascii_digit d
  | _ => false
  end.
Definition token_like (s : str) : bool :=
  contains (py "__PH") s || search_at PH_digit_here s.

(** What follows a piece of plain text in a masked string: the end, or the
    two underscores that open the next token. *)
Definition boundary (z : str) : Prop :=
  z = [] \/ exists z', z = 95%N :: 95%N :: z'.

(** A text cut at its placeholders: pairs of plain text and the placeholder
    that follows it, then the plain text after the last placeholder. *)
Fixpoint plain (chunks : list (str * str)) (last : str) : str :=
  match chunks with
  | [] => last
  | (seg, ph) :: rest => seg ++ ph ++ plain rest last
  end.

(** The same text with the placeholders replaced by tokens numbered from [i]. *)
Fixpoint masked_from (i : nat) (chunks : list (str * str)) (last : str) : str :=
  match chunks with
  | [] => last
  | (seg, ph) :: rest => seg ++ token i ++ masked_from (S i) rest last
  end.


(** ** The document *)

(** A value produced by [json.load].  Objects keep the order of their keys;
    a float is kept as its binary64 bit pattern. *)
#[warnings="-register-all"] Inductive json : Type :=
  | JNull
  | JBool (b : bool)
  | JInt (n : Z)
  | JFloat (bits : N)
  | JStr (s : str)
  | JArr (items : list json)
  | JObj (members : list (str * json)).

Abbreviation dict := (list (str * json)) (only parsing).

(** [v is None or v == ""], which is also [v in (None, "")]. *)
Definition is_empty_value (v : json) : bool :=
  match v with
  | JNull => true
  | JStr [] => true
  | _ => false
  end.

(** [mapping[k] = v] *)
Fixpoint dict_set (k : str) (v : json) (mapping : dict) : dict :=
  match mapping with
  | [] => [(k, v)]
  | (k', v') :: rest =>
      if bool_decide (k' = k) then (k', v) :: rest
      else (k', v') :: dict_set k v rest
  end.

Definition keys (mapping : dict) : list str := mapping.*1.

(** ** Statistics and run state *)

Local Open Scope Z_scope.

Record Stats : Set := mkStats {
  scanned_empty : Z;
  eligible : Z;
  filled : Z;
  skipped_high_risk : Z;
  skipped_not_whitelisted : Z;
  skipped_not_uiish : Z;
  skipped_translation_failed : Z;
  skipped_no_chinese : Z
}.

Definition Stats_init : Stats := mkStats 0 0 0 0 0 0 0 0.

Definition inc_scanned_empty (s : Stats) : Stats :=
  mkStats (scanned_empty s + 1) (eligible s) (filled s) (skipped_high_risk s)
    (skipped_not_whitelisted s) (skipped_not_uiish s)
    (skipped_translation_failed s) (skipped_no_chinese s).
Definition inc_eligible (s : Stats) : Stats :=
  mkStats (scanned_empty s) (eligible s + 1) (filled s) (skipped_high_risk s)
    (skipped_not_whitelisted s) (skipped_not_uiish s)
    (skipped_translation_failed s) (skipped_no_chinese s).
Definition inc_filled (s : Stats) : Stats :=
  mkStats (scanned_empty s) (eligible s) (filled s + 1) (skipped_high_risk s)
    (skipped_not_whitelisted s) (skipped_not_uiish s)
    (skipped_translation_failed s) (skipped_no_chinese s).
Definition inc_skipped_high_risk (s : Stats) : Stats :=
  mkStats (scanned_empty s) (eligible s) (filled s) (skipped_high_risk s + 1)
    (skipped_not_whitelisted s) (skipped_not_uiish s)
    (skipped_translation_failed s) (skipped_no_chinese s).
Definition inc_skipped_not_whitelisted (s : Stats) : Stats :=
  mkStats (scanned_empty s) (eligible s) (filled s) (skipped_high_risk s)
    (skipped_not_whitelisted s + 1) (skipped_not_uiish s)
    (skipped_translation_failed s) (skipped_no_chinese s).
Definition inc_skipped_not_uiish (s : Stats) : Stats :=
  mkStats (scanned_empty s) (eligible s) (filled s) (skipped_high_risk s)
    (skipped_not_whitelisted s) (skipped_not_uiish s + 1)
    (skipped_translation_failed s) (skipped_no_chinese s).
Definition inc_skipped_translation_failed (s : Stats) : Stats :=
  mkStats (scanned_empty s) (eligible s) (filled s) (skipped_high_risk s)
    (skipped_not_whitelisted s) (skipped_not_uiish s)
    (skipped_translation_failed s + 1) (skipped_no_chinese s).
Definition inc_skipped_no_chinese (s : Stats) : Stats :=
  mkStats (scanned_empty s) (eligible s) (filled s) (skipped_high_risk s)
    (skipped_not_whitelisted s) (skipped_not_uiish s)
    (skipped_translation_failed s) (skipped_no_chinese s + 1).

(** What [main] threads through its loops besides the document: [stats],
    the translation [cache], the local counter [filled], and the texts sent
    to the endpoint so far, oldest first. *)
Record State : Type := mkState {
  stats : Stats;
  cache : gmap str str;
  filled_local : Z;
  requests : list str
}.

Definition State_init : State := mkState Stats_init ∅ 0 [].

Definition on_stats (f : Stats -> Stats) (st : State) : State :=
  mkState (f (stats st)) (cache st) (filled_local st) (requests st).

(** The command line: [--max], [--require-uppercase-start], [--prefix]. *)
Record Args : Set := mkArgs {
  arg_max : Z;
  arg_require_uppercase_start : bool;
  arg_prefix : list str
}.

Definition DEFAULT_PREFIX_WHITELIST : list str :=
  [py "zed/crates/assistant/src/";
   py "zed/crates/assistant2/src/";
   py "zed/crates/collab_ui/src/";
   py "zed/crates/workspace/src/";
   py "zed/crates/project_panel/src/";
   py "zed/crates/search/src/";
   py "zed/crates/file_finder/src/";
   py "zed/crates/diagnostics/src/";
   py "zed/crates/tasks_ui/src/";
   py "zed/crates/zed/src/"].

Definition _path_whitelisted (file_path : str) (prefixes : list str) : bool :=
  existsb (fun p => startswith p file_path) prefixes.

(** [args.prefix or list(DEFAULT_PREFIX_WHITELIST)] *)
Definition effective_prefixes (args : Args) : list str :=
  match arg_prefix args with
  | [] => DEFAULT_PREFIX_WHITELIST
  | _ :: _ => arg_prefix args
  end.

Inductive flow : Set := Continue | Break.

(** [uiish] of the source. *)
Definition uiish (src : str) : bool :=
  _uppercase_start src || bool_decide (strip src ∈ SAFE_SINGLE_WORDS).

(** The state after a fill: both counters of filled entries go up. *)
Definition count_fill (st : State) : State :=
  mkState (inc_filled (stats st)) (cache st) (filled_local st + 1) (requests st).

(** The number of empty values of a mapping. *)
Definition empty_values (mapping : dict) : Z :=
  Z.of_nat (length (List.filter (fun e => is_empty_value e.2) mapping)).

(** The state with [n] more entries scanned and skipped as not whitelisted. *)
Definition skip_not_whitelisted (n : Z) (st : State) : State :=
  mkState
    (mkStats (scanned_empty (stats st) + n) (eligible (stats st))
       (filled (stats st)) (skipped_high_risk (stats st))
       (skipped_not_whitelisted (stats st) + n) (skipped_not_uiish (stats st))
       (skipped_translation_failed (stats st)) (skipped_no_chinese (stats st)))
    (cache st) (filled_local st) (requests st).

(** Every scanned entry has one outcome, and every eligible one too. *)
Definition partition_ok (s : Stats) : Prop :=
  scanned_empty s
  = filled s + skipped_high_risk s + skipped_not_whitelisted s
    + skipped_not_uiish s + skipped_translation_failed s + skipped_no_chinese s
  /\ eligible s = filled s + skipped_translation_failed s + skipped_no_chinese s.

(** ** A sample run *)

(** An interpreter whose tables hold nothing beyond ASCII. *)
Definition ascii_only : char -> bool := fun _ => false.

(** An endpoint that fails on its second request and otherwise answers
    with the text followed by two Chinese characters. *)
Definition sample_service (n : nat) (text : str) : str + str :=
  if (n =? 1)%nat then inr (py "timed out")
  else inl (text ++ [20013%N; 25991%N]).

Definition sample_args : Args := mkArgs 2 true [].

Definition sample_mapping : dict :=
  [(py "Open File", JStr []); (py "Cancel", JNull);
   (py "Close {x} now", JStr []); (py "Save it", JStr (py "x"));
   (py "open file", JNull)].

Definition sample_data : dict :=
  [(py "zed/crates/zed/src/a.rs", JObj sample_mapping);
   (py "docs/other.rs", JObj [(py "Open File", JStr [])]);
   (py "version", JInt 3)].

(** ** Vocabulary of the further properties *)

(** A text that is empty or starts with a character that is not white
    space. *)
Definition starts_visible (s : str) : Prop :=
  match s with
  | [] => True
  | c :: _ => is_space c = false
  end.

(** One of the three characters a placeholder can start with. *)
Definition placeholder_start (c : char) : bool :=
  ((c =? 123) || (c =? 37) || (c =? 36))%N.

(** A cache that holds only stripped, non-empty translations. *)
Definition cache_ok (cache : gmap str str) : Prop :=
  forall text out, cache !! text = Some out -> out <> [] /\ strip out = out.

(** The number of empty values in the mappings of a document. *)
Fixpoint total_empties (data : dict) : Z :=
  match data with
  | [] => 0
  | (_, JObj mapping) :: rest => empty_values mapping + total_empties rest
  | _ :: rest => total_empties rest
  end.

(** No mapping of the document has an empty value. *)
Definition no_empty_values (data : dict) : Prop :=
  Forall
    (fun e =>
       match e.2 with
       | JObj mapping => Forall (fun kv => is_empty_value kv.2 = false) mapping
       | _ => True
       end)
    data.

(** The request log of a state holds at most three requests per eligible
    entry, and only texts with the property [P]. *)
Definition requests_ok (P : str -> Prop) (st : State) : Prop :=
  Z.of_nat (length (requests st)) <= 3 * eligible (stats st)
  /\ Forall P (requests st).

(** No outcome counter is negative. *)
Definition counters_nonneg (s : Stats) : Prop :=
  0 <= filled s /\ 0 <= skipped_high_risk s /\ 0 <= skipped_not_whitelisted s
  /\ 0 <= skipped_not_uiish s /\ 0 <= skipped_translation_failed s
  /\ 0 <= skipped_no_chinese s.

(** ** Further sample inputs *)


(** A document with nothing left to fill. *)
Definition complete_data : dict :=
  [(py "zed/crates/zed/src/a.rs", JObj [(py "Open File", JStr (py "x"))]);
   (py "version", JInt 3)].

Definition zero_args : Args := mkArgs 0 false [].
Definition roomy_args : Args := mkArgs 250 false [].

(** ** The pass *)

Section Pass.

Variable unicode_decimal : char -> bool.
Variable unicode_alnum : char -> bool.

(** [_google_translate]: what the endpoint answers to the request with
    the given sequence number and text, or the message of the exception
    the call raises.  Pauses between calls have no effect on the result. *)
Variable google_translate : nat -> str -> str + str.

(** The [for attempt in range(3)] loop of [_translate_with_retries]. *)
Fixpoint translate_attempts (n : nat) (text last_err : str) (st : State)
  : bool * str * State :=
  match n with
  | O => (false, last_err, st)
  | S n' =>
      let reply := google_translate (length (requests st)) text in
      let st := mkState (stats st) (cache st) (filled_local st)
                  (requests st ++ [text]) in
      match reply with
      | inl out =>
          let out := strip out in
          match out with
          | _ :: _ =>
              (true, out,
               mkState (stats st) (<[text := out]> (cache st))
                 (filled_local st) (requests st))
          | [] => translate_attempts n' text (py "empty translation") st
          end
      | inr e => translate_attempts n' text e st
      end
  end.

Definition _translate_with_retries (text : str) (st : State)
  : bool * str * State :=
  match cache st !! text with
  | Some out => (true, out, st)
  | None => translate_attempts 3 text (py "None") st
  end.

Variable args : Args.

(** The body of the loop over [list(mapping.items())]. *)
Definition fill_entry (original : str) (translated : json)
    (mapping : dict) (st : State) : dict * State * flow :=
  if negb (is_empty_value translated) then (mapping, st, Continue)
  else
    let st := on_stats inc_scanned_empty st in
    let src := original in
    if negb (_contains_letters src) then
      (mapping, on_stats inc_skipped_high_risk st, Continue)
    else if _is_high_risk unicode_decimal unicode_alnum src then
      (mapping, on_stats inc_skipped_high_risk st, Continue)
    else
      let uiish :=
        _uppercase_start src || bool_decide (strip src ∈ SAFE_SINGLE_WORDS) in
      if arg_require_uppercase_start args && negb uiish then
        (mapping, on_stats inc_skipped_not_uiish st, Continue)
      else
        let st := on_stats inc_eligible st in
        let '(masked, placeholders) := _mask_placeholders unicode_decimal src in
        let '(ok, out, st) := _translate_with_retries masked st in
        if negb ok then
          (mapping, on_stats inc_skipped_translation_failed st, Continue)
        else
          let '(ok2, unmasked) := _unmask_placeholders out placeholders in
          if negb ok2 then
            (mapping, on_stats inc_skipped_translation_failed st, Continue)
          else
            let unmasked := strip unmasked in
            if negb (has_chinese unmasked) then
              (mapping, on_stats inc_skipped_no_chinese st, Continue)
            else
              let mapping := dict_set original (JStr unmasked) mapping in
              let st := mkState (inc_filled (stats st)) (cache st)
                          (filled_local st + 1) (requests st) in
              if arg_max args <=? filled_local st then (mapping, st, Break)
              else (mapping, st, Continue).

(** [for original, translated in list(mapping.items())]: the loop runs
    over the snapshot [items] and updates [mapping]. *)
Fixpoint fill_mapping (items : dict) (mapping : dict) (st : State)
  : dict * State :=
  match items with
  | [] => (mapping, st)
  | (original, translated) :: items' =>
      match fill_entry original translated mapping st with
      | (mapping, st, Break) => (mapping, st)
      | (mapping, st, Continue) => fill_mapping items' mapping st
      end
  end.

(** The loop over a mapping whose path is not whitelisted. *)
Fixpoint count_empties (mapping : dict) (st : State) : State :=
  match mapping with
  | [] => st
  | (_, v) :: rest =>
      if is_empty_value v then
        count_empties rest
          (on_stats inc_skipped_not_whitelisted
             (on_stats inc_scanned_empty st))
      else count_empties rest st
  end.

(** [for file_path, mapping in data.items()] *)
Fixpoint fill_document (prefixes : list str) (data : dict) (st : State)
  : dict * State :=
  match data with
  | [] => ([], st)
  | (file_path, JObj mapping) :: rest =>
      if negb (_path_whitelisted file_path prefixes) then
        let '(rest, st) :=
          fill_document prefixes rest (count_empties mapping st) in
        ((file_path, JObj mapping) :: rest, st)
      else
        let '(mapping, st) := fill_mapping mapping mapping st in
        if arg_max args <=? filled_local st then
          ((file_path, JObj mapping) :: rest, st)
        else
          let '(rest, st) := fill_document prefixes rest st in
          ((file_path, JObj mapping) :: rest, st)
  | (file_path, other) :: rest =>
      let '(rest, st) := fill_document prefixes rest st in
      ((file_path, other) :: rest, st)
  end.

(** [main], from the loaded document to the end of its loops: the document
    that is handed to [json.dump] for [--output], and the state then, whose
    [stats] are the statistics printed.  Writing the file is not part of
    it: [json.dump] can still raise on a string it cannot encode. *)
Definition main (data : dict) : dict * State :=
  fill_document (effective_prefixes args) data State_init.

(** ** Vocabulary of the properties *)

Abbreviation is_high_risk := (_is_high_risk unicode_decimal unicode_alnum).
Abbreviation mask := (_mask_placeholders unicode_decimal).

(** The outcomes of the loop body, one per exit of the source. *)
Inductive entry_step (original : str) (translated : json) (mapping : dict)
    (st : State) : dict * State * flow -> Prop :=
  | step_not_empty :
      is_empty_value translated = false ->
      entry_step original translated mapping st (mapping, st, Continue)
  | step_high_risk :
      is_empty_value translated = true ->
      _contains_letters original = false \/ is_high_risk original = true ->
      entry_step original translated mapping st
        (mapping, on_stats inc_skipped_high_risk (on_stats inc_scanned_empty st),
         Continue)
  | step_not_uiish :
      is_empty_value translated = true ->
      _contains_letters original = true -> is_high_risk original = false ->
      arg_require_uppercase_start args = true -> uiish original = false ->
      entry_step original translated mapping st
        (mapping, on_stats inc_skipped_not_uiish (on_stats inc_scanned_empty st),
         Continue)
  | step_translation_failed out st1 :
      is_empty_value translated = true ->
      _contains_letters original = true -> is_high_risk original = false ->
      (arg_require_uppercase_start args = true -> uiish original = true) ->
      _translate_with_retries (mask original).1
        (on_stats inc_eligible (on_stats inc_scanned_empty st)) = (false, out, st1) ->
      entry_step original translated mapping st
        (mapping, on_stats inc_skipped_translation_failed st1, Continue)
  | step_unmask_failed out st1 text :
      is_empty_value translated = true ->
      _contains_letters original = true -> is_high_risk original = false ->
      (arg_require_uppercase_start args = true -> uiish original = true) ->
      _translate_with_retries (mask original).1
        (on_stats inc_eligible (on_stats inc_scanned_empty st)) = (true, out, st1) ->
      _unmask_placeholders out (mask original).2 = (false, text) ->
      entry_step original translated mapping st
        (mapping, on_stats inc_skipped_translation_failed st1, Continue)
  | step_no_chinese out st1 unmasked :
      is_empty_value translated = true ->
      _contains_letters original = true -> is_high_risk original = false ->
      (arg_require_uppercase_start args = true -> uiish original = true) ->
      _translate_with_retries (mask original).1
        (on_stats inc_eligible (on_stats inc_scanned_empty st)) = (true, out, st1) ->
      _unmask_placeholders out (mask original).2 = (true, unmasked) ->
      has_chinese (strip unmasked) = false ->
      entry_step original translated mapping st
        (mapping, on_stats inc_skipped_no_chinese st1, Continue)
  | step_filled out st1 unmasked :
      is_empty_value translated = true ->
      _contains_letters original = true -> is_high_risk original = false ->
      (arg_require_uppercase_start args = true -> uiish original = true) ->
      _translate_with_retries (mask original).1
        (on_stats inc_eligible (on_stats inc_scanned_empty st)) = (true, out, st1) ->
      _unmask_placeholders out (mask original).2 = (true, unmasked) ->
      has_chinese (strip unmasked) = true ->
      entry_step original translated mapping st
        (dict_set original (JStr (strip unmasked)) mapping, count_fill st1,
         if arg_max args <=? filled_local st1 + 1 then Break else Continue).

(** The conditions under which the loop body reaches the translation. *)
Definition fill_conditions (k : str) : Prop :=
  _contains_letters k = true /\ is_high_risk k = false
  /\ (arg_require_uppercase_start args = true -> uiish k = true).

(** A value the loop body writes for the key [k]. *)
Definition filled_value (k : str) (v : json) : Prop :=
  exists out unmasked,
    _unmask_placeholders out (mask k).2 = (true, unmasked)
    /\ has_chinese (strip unmasked) = true
    /\ v = JStr (strip unmasked).

(** An entry of the mapping [m0] and the entry at the same place afterwards:
    same key, and the value is the old one or one written for a key that
    had an empty value in [m0]. *)
Definition entry_frame (m0 : dict) (e e' : str * json) : Prop :=
  e.1 = e'.1
  /\ (e.2 = e'.2
      \/ ((exists t, (e.1, t) ∈ m0 /\ is_empty_value t = true)
          /\ fill_conditions e.1 /\ filled_value e.1 e'.2)).

(** A top-level member and the member at the same place afterwards. *)
Definition member_frame (prefixes : list str) (e e' : str * json) : Prop :=
  e.1 = e'.1
  /\ (e.2 = e'.2
      \/ exists m m', e.2 = JObj m /\ e'.2 = JObj m'
           /\ _path_whitelisted e.1 prefixes = true
           /\ Forall2 (entry_frame m) m m').



(** The classes of strings the risk filter is described by, on the
    stripped text [t] of an original string: white space only, longer than
    180 characters, a URL or mail address, like a file path, a lowercase
    identifier, one of the operators, a debug format, punctuation only or
    a number only, a single CamelCase token; or no ASCII letter at all. *)
Definition classified_high_risk (text : str) : Prop :=
  let t := strip text in
  t = []
  \/ (180 < length t)%nat
  \/ contains (py "://") t = true
  \/ startswith (py "mailto:") t = true
  \/ _RE_FILELIKE_search t = true
  \/ _RE_IDENTIFIER_fullmatch t = true
  \/ (contains (py "::") t = true \/ contains (py "->") t = true
      \/ contains (py "=>") t = true)
  \/ _RE_DEBUG_FMT_search t = true
  \/ _RE_PUNCT_ONLY_fullmatch unicode_alnum t = true
  \/ _RE_NUMBER_ONLY_fullmatch unicode_decimal t = true
  \/ (contains (py " ") t = false /\ _RE_CAMEL_NO_SPACE_fullmatch t = true
      /\ existsb is_ascii_lower t = true /\ existsb is_ascii_upper t = true)
  \/ _contains_letters text = false.

(** A text the run may send for the document [data]: the masked original
    of an entry with an empty value, in a mapping under a whitelisted
    path, that passes the filters of the loop body. *)
Definition request_of (data : dict) (r : str) : Prop :=
  exists file_path mapping original translated,
    (file_path, JObj mapping) ∈ data
    /\ _path_whitelisted file_path (effective_prefixes args) = true
    /\ (original, translated) ∈ mapping
    /\ is_empty_value translated = true
    /\ fill_conditions original
    /\ r = (mask original).1.

(** * Properties *)

(** ** Substrings *)

Local Open Scope nat_scope.

Lemma startswith_spec (p s : str) :
  startswith p s = true <-> exists r, s = p ++ r.
Proof.
  revert s; induction p as [|a p IH]; intros s; simpl.
  - split; eauto.
  - destruct s as [|b s].
    + split; [discriminate | intros [r Hr]; discriminate].
    + rewrite andb_true_iff, N.eqb_eq, IH. split.
      * intros [-> [r ->]]. eauto.
      * intros [r Hr]. simplify_eq. eauto.
Qed.

Lemma startswith_app (p r : str) : startswith p (p ++ r) = true.
Proof. apply startswith_spec. eauto. Qed.

Lemma contains_spec (p s : str) :
  contains p s = true <-> exists l r, s = l ++ p ++ r.
Proof.
  induction s as [|c s IH]; simpl.
  - rewrite orb_false_r, startswith_spec. split.
    + intros [r Hr]. exists [], r. done.
    + intros (l & r & Hs). destruct l; [eauto|discriminate].
  - rewrite orb_true_iff, startswith_spec, IH. split.
    + intros [[r Hr] | (l & r & Hs)].
      * exists [], r. done.
      * exists (c :: l), r. by rewrite Hs.
    + intros (l & r & Hs). destruct l as [|d l].
      * left. eauto.
      * right. simplify_eq/=. eauto.
Qed.

Lemma contains_false (p s : str) :
  contains p s = false <-> forall l r, s <> l ++ p ++ r.
Proof.
  rewrite <- not_true_iff_false, contains_spec. split.
  - intros H l r ->. apply H. eauto.
  - intros H (l & r & ->). by apply (H l r).
Qed.

Lemma contains_mid (p l r : str) : contains p (l ++ p ++ r) = true.
Proof. apply contains_spec. eauto. Qed.

Lemma span_app (f : char -> bool) (s a b : str) :
  span f s = (a, b) -> s = a ++ b.
Proof.
  revert a b; induction s as [|c s IH]; intros a b; simpl.
  - by intros [= <- <-].
  - destruct (f c); [|by intros [= <- <-]].
    destruct (span f s) as [a' b'] eqn:E. intros [= <- <-].
    by rewrite (IH a' b').
Qed.

(** ** [str.replace] *)

Lemma replace_go_fuel (old new : str) (f1 f2 : nat) (s : str) :
  old <> [] -> length s <= f1 -> length s <= f2 ->
  replace_go f1 old new s = replace_go f2 old new s.
Proof.
  intros Hold. revert f2 s; induction f1 as [|f1 IH]; intros f2 s H1 H2.
  - destruct s; [|simpl in H1; lia]. by destruct f2.
  - destruct f2 as [|f2].
    + destruct s; [done | simpl in H2; lia].
    + simpl. destruct s as [|c s]; [done|].
      destruct (startswith old (c :: s)).
      * f_equal. assert (0 < length old) by (destruct old; [done | simpl; lia]).
        apply IH; rewrite length_drop; simpl in *; lia.
      * f_equal. apply IH; simpl in *; lia.
Qed.

Lemma replace_nil (old new : str) : old <> [] -> replace old new [] = [].
Proof. by destruct old. Qed.

Lemma replace_miss (old new : str) (c : char) (s : str) :
  startswith old (c :: s) = false ->
  replace old new (c :: s) = c :: replace old new s.
Proof.
  intros H. destruct old as [|o old]; [done|].
  unfold replace. simpl length. cbn [replace_go]. by rewrite H.
Qed.

Lemma replace_hit (old new r : str) :
  old <> [] -> replace old new (old ++ r) = new ++ replace old new r.
Proof.
  intros Hold. destruct old as [|o old]; [done|].
  unfold replace. simpl app. simpl length. cbn [replace_go].
  change (o :: old ++ r) with ((o :: old) ++ r).
  rewrite startswith_app, drop_app_length. f_equal.
  apply replace_go_fuel; [done | rewrite length_app; lia | lia].
Qed.

(** Without an occurrence there is nothing to replace. *)
Lemma replace_absent (old new s : str) :
  old <> [] -> contains old s = false -> replace old new s = s.
Proof.
  intros Hold. induction s as [|c s IH]; intros H.
  - by apply replace_nil.
  - simpl in H. apply orb_false_iff in H as [H1 H2].
    rewrite replace_miss by done. by rewrite IH.
Qed.

(** The first occurrence, when nothing starts earlier. *)
Lemma replace_first (old new a r : str) :
  old <> [] ->
  (forall a1 c a2, a = a1 ++ c :: a2 -> startswith old (c :: a2 ++ old ++ r) = false) ->
  replace old new (a ++ old ++ r) = a ++ new ++ replace old new r.
Proof.
  intros Hold. induction a as [|c a IH]; intros H.
  - simpl. by apply replace_hit.
  - simpl. rewrite replace_miss by (apply (H [] c a); done).
    f_equal. apply IH. intros a1 d a2 ->. by apply (H (c :: a1) d a2).
Qed.

Lemma contains_app_false (p a b : str) :
  (forall a1 c a2, a = a1 ++ c :: a2 -> startswith p (c :: a2 ++ b) = false) ->
  contains p b = false -> contains p (a ++ b) = false.
Proof.
  intros H Hb. induction a as [|c a IH]; [done|].
  simpl. rewrite (H [] c a) by done. simpl.
  apply IH. intros a1 d a2 ->. by apply (H (c :: a1) d a2).
Qed.

(** ** Tokens *)

Lemma uint_chars_digits (d : Decimal.uint) :
  Forall (fun c => c <> 95%N) (uint_chars d).
Proof. induction d; simpl; constructor; done. Qed.

Lemma uint_chars_inj (d d' : Decimal.uint) :
  uint_chars d = uint_chars d' -> d = d'.
Proof.
  revert d'; induction d; intros d'; destruct d'; simpl; intros H;
    try discriminate; try done; f_equal; apply IHd; congruence.
Qed.

Lemma str_of_nat_inj (i j : nat) : str_of_nat i = str_of_nat j -> i = j.
Proof.
  intros H. apply uint_chars_inj in H.
  rewrite <- (Unsigned.of_to i), <- (Unsigned.of_to j). by rewrite H.
Qed.

(** Two digit runs closed by an underscore at the same place are equal. *)
Lemma digits_delimited (A B w x : str) :
  Forall (fun c => c <> 95%N) A -> Forall (fun c => c <> 95%N) B ->
  A ++ 95%N :: w = B ++ 95%N :: x -> A = B.
Proof.
  intros HA; revert B; induction HA as [|a A Ha HA IH]; intros B HB H.
  - destruct HB as [|b B Hb HB]; [done|]. simplify_eq/=.
  - destruct HB as [|b B Hb HB]; simplify_eq/=. f_equal. by apply IH.
Qed.

Arguments token : simpl never.
Arguments py : simpl never.

Lemma token_unfold (i : nat) :
  token i = 95%N :: 95%N :: 80%N :: 72%N :: str_of_nat i ++ [95%N; 95%N].
Proof. reflexivity. Qed.

Lemma token_nonempty (i : nat) : token i <> [].
Proof. by rewrite token_unfold. Qed.

Lemma token_inj (i j : nat) (r x : str) :
  token i ++ r = token j ++ x -> i = j.
Proof.
  rewrite !token_unfold. simpl. intros H. simplify_eq.
  rewrite <- !app_assoc in H. simpl in H.
  apply str_of_nat_inj.
  eapply digits_delimited; [apply uint_chars_digits.. | exact H].
Qed.

Lemma search_at_suffix (here : str -> bool) (l r : str) :
  here r = true -> search_at here (l ++ r) = true.
Proof.
  intros H. induction l as [|c l IH]; simpl.
  - destruct r; simpl; rewrite H; done.
  - rewrite IH. apply orb_true_r.
Qed.

Lemma token_like_free (s : str) : token_like s = false -> token_free s.
Proof.
  unfold token_like. intros H. apply orb_false_iff in H as [H1 H2]. split.
  - intros l r. by apply (proj1 (contains_false (py "__PH") s) H1 l r).
  - intros l d r Hd ->. rewrite search_at_suffix in H2; [done|].
    simpl. by rewrite Hd.
Qed.

Lemma token_free_app (a b : str) :
  token_free (a ++ b) -> token_free a /\ token_free b.
Proof.
  intros [H1 H2]. split; split.
  - intros l r ->. apply (H1 l (r ++ b)). by rewrite <- app_assoc.
  - intros l d r Hd ->. apply (H2 l d (r ++ b) Hd). by rewrite <- app_assoc.
  - intros l r ->. apply (H1 (a ++ l) r). by rewrite <- app_assoc.
  - intros l d r Hd ->. apply (H2 (a ++ l) d r Hd). by rewrite <- app_assoc.
Qed.

Lemma token_free_underscores (l r : str) :
  ~ token_free (l ++ 95%N :: 95%N :: 80%N :: 72%N :: r).
Proof. intros [H _]. by apply (H l r). Qed.

(** A token starts with its prefix and a digit. *)
Lemma token_shape (i : nat) (r : str) :
  exists d w,
    is_ascii_digit d = true
    /\ token i ++ r = 95%N :: 95%N :: 80%N :: 72%N :: d :: w.
Proof.
  rewrite token_unfold. unfold str_of_nat.
  assert (Nat.to_uint i <> Decimal.Nil) as Hnil.
  { rewrite <- (Unsigned.of_to i), Unsigned.to_of.
    apply DecimalFacts.unorm_nonnil. }
  destruct (Nat.to_uint i); [done|..]; simpl; eexists _, _;
    (split; [|reflexivity]); reflexivity.
Qed.

Lemma boundary_token (i : nat) (x : str) : boundary (token i ++ x).
Proof. right. rewrite token_unfold. simpl. eauto. Qed.

(** A token cannot start inside token-free text, nor on the closing
    underscores of the token before it. *)
Lemma token_not_across (u y z r : str) (i : nat) :
  u = [] \/ u = [95%N] \/ u = [95%N; 95%N] ->
  token_free y -> boundary z ->
  u ++ y ++ z = token i ++ r -> u = [] /\ y = [].
Proof.
  destruct (token_shape i r) as (d & w & Hd & ->).
  intros Hu [Hy1 Hy2] Hz H. destruct Hu as [-> | [-> | ->]]; simpl in H.
  - destruct y as [|y0 [|y1 [|y2 [|y3 y]]]]; [done|..];
      try (destruct Hz as [-> | [z' ->]]; simplify_eq/=).
    all: simplify_eq/=; by destruct (Hy1 [] y).
  - destruct y as [|y0 [|y1 [|y2 [|y3 y]]]];
      try (destruct Hz as [-> | [z' ->]]; simplify_eq/=);
      try (by vm_compute in Hd).
    all: simplify_eq/=; by destruct (Hy2 [95%N] d y).
  - destruct y as [|y0 [|y1 [|y2 y]]];
      try (destruct Hz as [-> | [z' ->]]; simplify_eq/=);
      try (by vm_compute in Hd).
    all: simplify_eq/=; by destruct (Hy2 [] d y).
Qed.

Lemma token_not_in_text (i : nat) (c : char) (a b : str) :
  token_free (c :: a) -> boundary b -> startswith (token i) (c :: a ++ b) = false.
Proof.
  intros Ha Hb. apply not_true_iff_false. rewrite startswith_spec.
  intros [r Hr].
  by destruct (token_not_across [] (c :: a) b r i) as [_ ?]; auto.
Qed.

(** The non-empty suffixes of a digit run followed by two underscores. *)
Lemma digits_suffix (D a1 : str) (c : char) (a2 : str) :
  a1 ++ c :: a2 = D ++ [95%N; 95%N] ->
  (exists D1 D2, D = D1 ++ c :: D2) \/ c :: a2 = [95%N; 95%N] \/ c :: a2 = [95%N].
Proof.
  revert a1; induction D as [|d D IH]; intros a1 H.
  - destruct a1 as [|x [|y a1]]; simplify_eq/=; auto.
    by destruct a1.
  - destruct a1 as [|x a1]; simpl in H; injection H as -> H.
    + left. by exists [], D.
    + destruct (IH a1 H) as [(D1 & D2 & ->) | ?]; auto.
      left. by exists (d :: D1), D2.
Qed.

Lemma token_not_in_token (i j : nat) (a1 : str) (c : char) (a2 y z : str) :
  i <> j -> token j = a1 ++ c :: a2 -> token_free y -> boundary z ->
  startswith (token i) (c :: a2 ++ y ++ z) = false.
Proof.
  intros Hij Hj Hy Hz. apply not_true_iff_false. rewrite startswith_spec.
  intros [r Hr].
  destruct a1 as [|x0 a1].
  { simpl in Hj. apply Hij. symmetry. apply (token_inj j i (y ++ z) r).
    by rewrite Hj. }
  rewrite token_unfold in Hj.
  destruct a1 as [|x1 a1].
  { rewrite token_unfold in Hr. simplify_eq/=. }
  destruct a1 as [|x2 a1].
  { rewrite token_unfold in Hr. simplify_eq/=. }
  destruct a1 as [|x3 a1].
  { rewrite token_unfold in Hr. simplify_eq/=. }
  simpl in Hj. injection Hj as <- <- <- <- Hj. symmetry in Hj.
  apply digits_suffix in Hj as Hcase.
  destruct Hcase as [(D1 & D2 & HD) | [E | E]].
  - pose proof (uint_chars_digits (Nat.to_uint j)) as Hd.
    unfold str_of_nat in HD. rewrite HD in Hd.
    apply Forall_app in Hd as [_ Hd]. apply Forall_cons in Hd as [Hc _].
    rewrite token_unfold in Hr. simplify_eq/=.
  - injection E as -> ->.
    by destruct (token_not_across [95%N; 95%N] y z r i) as [? _];
      [auto | done | done | exact Hr |].
  - injection E as -> ->.
    by destruct (token_not_across [95%N] y z r i) as [? _];
      [auto | done | done | exact Hr |].
Qed.

(** ** Masking and unmasking *)

Lemma percent_tail_split (nd : char -> bool) (s m rest : str) :
  percent_tail nd s = Some (m, rest) -> s = m ++ rest.
Proof.
  unfold percent_tail. destruct (span (is_digit nd) s) as [ds r1] eqn:E.
  apply span_app in E as ->. intros H.
  destruct r1 as [|c r]; [done|]. destruct (c =? 36)%N.
  - destruct r as [|l r3]; [done|]. destruct (is_ascii_letter l); [|done].
    simplify_eq. by rewrite <- !app_assoc.
  - destruct (is_ascii_letter c); [|done]. simplify_eq. by rewrite <- !app_assoc.
Qed.

Lemma match_placeholder_split (nd : char -> bool) (s m rest : str) :
  match_placeholder nd s = Some (m, rest) -> s = m ++ rest /\ m <> [].
Proof.
  destruct s as [|c r]; [done|]. simpl.
  destruct (c =? 123)%N.
  { destruct (span _ r) as [body tl] eqn:E. apply span_app in E as ->.
    destruct tl as [|close tl']; [done|]. intros [= <- <-].
    split; [|done]. simpl. by rewrite <- app_assoc. }
  destruct (c =? 37)%N.
  { destruct (percent_tail nd r) as [[m' rest']|] eqn:E; [|done].
    apply percent_tail_split in E as ->. intros [= <- <-]. done. }
  destruct (c =? 36)%N; [|done].
  destruct r as [|open r1]; [done|]. destruct (open =? 123)%N; [|done].
  destruct (span _ r1) as [body tl] eqn:E. apply span_app in E as ->.
  destruct body as [|b body]; [done|]. destruct tl as [|close tl']; [done|].
  intros [= <- <-]. split; [|done]. simpl. by rewrite <- app_assoc.
Qed.

(** Masking cuts the text into chunks and numbers the tokens in order. *)
Lemma mask_go_chunks (nd : char -> bool) (fuel : nat) (s : str) (phs : list str) :
  length s <= fuel ->
  exists chunks last,
    s = plain chunks last
    /\ mask_go nd fuel s phs
       = (masked_from (length phs) chunks last, phs ++ chunks.*2).
Proof.
  revert s phs; induction fuel as [|fuel IH]; intros s phs Hlen.
  - destruct s; [|simpl in Hlen; lia].
    exists [], []. by rewrite app_nil_r.
  - destruct s as [|c s'].
    { exists [], []. by rewrite app_nil_r. }
    cbn [mask_go].
    destruct (match_placeholder nd (c :: s')) as [[m rest]|] eqn:E.
    + apply match_placeholder_split in E as [Hs Hm].
      assert (length rest <= fuel) as Hrest.
      { apply (f_equal length) in Hs. rewrite length_app in Hs.
        destruct m; [done|]. simpl in *. lia. }
      destruct (IH rest (phs ++ [m]) Hrest) as (chunks & last & Hp & ->).
      exists (([], m) :: chunks), last. split.
      * simpl. by rewrite Hs, Hp.
      * rewrite length_app. simpl length.
        replace (length phs + 1 - 1) with (length phs) by lia.
        replace (length phs + 1) with (S (length phs)) by lia.
        cbn [masked_from fmap list_fmap snd app]. f_equal.
        by rewrite <- (app_assoc phs [m]).
    + assert (length s' <= fuel) as Hs' by (simpl in Hlen; lia).
      destruct (IH s' phs Hs') as (chunks & last & Hp & ->).
      destruct chunks as [|[seg ph] chunks].
      * exists [], (c :: last). simpl in *. by rewrite Hp.
      * exists ((c :: seg, ph) :: chunks), last. simpl in *. by rewrite Hp.
Qed.

Lemma masked_from_boundary (i : nat) (chunks : list (str * str)) (last : str) :
  token_free (plain chunks last) ->
  exists y z, masked_from i chunks last = y ++ z /\ token_free y /\ boundary z.
Proof.
  destruct chunks as [|[seg ph] rest]; simpl; intros H.
  - exists last, []. rewrite app_nil_r. split_and!; [done..|by left].
  - apply token_free_app in H as [Hseg _].
    exists seg, (token i ++ masked_from (S i) rest last).
    split_and!; [done..|apply boundary_token].
Qed.

(** No token of a smaller index occurs in a masked text. *)
Lemma token_absent (i j : nat) (chunks : list (str * str)) (last : str) :
  i < j -> token_free (plain chunks last) ->
  contains (token i) (masked_from j chunks last) = false.
Proof.
  revert j; induction chunks as [|[seg ph] rest IH]; intros j Hij Hfree;
    cbn [plain masked_from] in *.
  - apply contains_false. intros l r ->.
    by apply (token_free_underscores l ((str_of_nat i ++ [95%N; 95%N]) ++ r)).
  - apply token_free_app in Hfree as [Hseg Hrest].
    apply token_free_app in Hrest as [_ Hrest].
    apply contains_app_false.
    { intros a1 c a2 ->. apply token_free_app in Hseg as [_ Hseg].
      apply token_not_in_text; [done | apply boundary_token]. }
    destruct (masked_from_boundary (S j) rest last Hrest) as (y & z & Hyz & Hy & Hz).
    apply contains_app_false; [|apply IH; [lia | done]].
    intros a1 c a2 Hj. rewrite Hyz.
    apply (token_not_in_token i j a1); [lia | done..].
Qed.

(** The unmasking loop undoes the masking of a token-free text. *)
Lemma unmask_masked (i : nat) (chunks : list (str * str)) (last pre text : str) :
  token_free (pre ++ plain chunks last) ->
  unmask_from i chunks.*2 text (pre ++ masked_from i chunks last)
  = (true, pre ++ plain chunks last).
Proof.
  revert i pre; induction chunks as [|[seg ph] rest IH]; intros i pre Hfree.
  - simpl in *.
    assert (contains (py "__PH") (pre ++ last) = false) as ->; [|done].
    apply contains_false. intros l r E. rewrite E in Hfree.
    by apply (token_free_underscores l r).
  - cbn [fmap list_fmap snd unmask_from masked_from plain].
    rewrite (app_assoc pre seg). rewrite contains_mid. cbn [negb].
    pose proof Hfree as Hparts. cbn [plain] in Hparts.
    rewrite (app_assoc pre seg) in Hparts.
    apply token_free_app in Hparts as [Hpre Hrest].
    apply token_free_app in Hrest as [_ Hrest].
    rewrite replace_first; [|apply token_nonempty|].
    + rewrite replace_absent;
        [|apply token_nonempty | apply token_absent; [lia | done]].
      specialize (IH (S i) ((pre ++ seg) ++ ph)).
      rewrite <- !app_assoc in IH. rewrite <- !app_assoc.
      rewrite IH; [done|]. exact Hfree.
    + intros a1 c a2 E. rewrite E in Hpre.
      apply token_free_app in Hpre as [_ Hpre].
      apply token_not_in_text; [done | apply boundary_token].
Qed.

(** [C2], as amended: on a text that contains neither the token prefix
    nor the letters PH followed by a digit, [_mask_placeholders] followed
    by [_unmask_placeholders] succeeds and returns exactly the text, so
    every placeholder is back verbatim at its place. *)
Theorem mask_unmask_roundtrip (s : str) :
  token_like s = false ->
  _unmask_placeholders (_mask_placeholders unicode_decimal s).1
    (_mask_placeholders unicode_decimal s).2 = (true, s).
Proof.
  intros Hfree. apply token_like_free in Hfree.
  unfold _mask_placeholders, _unmask_placeholders.
  destruct (mask_go_chunks unicode_decimal (length s) s [])
    as (chunks & last & Hs & ->); [done|].
  simpl. rewrite Hs.
  apply (unmask_masked 0 chunks last []). simpl. by rewrite <- Hs.
Qed.

(** What the unmasking loop returns. *)
Lemma unmask_from_result (i : nat) (phs : list str) (text out : str) (ok : bool)
    (res : str) :
  unmask_from i phs text out = (ok, res) ->
  if ok then contains (py "__PH") res = false
  else res = text \/ contains (py "__PH") res = true.
Proof.
  revert i out; induction phs as [|ph phs IH]; intros i out; simpl.
  - destruct (contains (py "__PH") out) eqn:E; intros [= <- <-]; auto.
  - destruct (contains (token i) out); simpl; [apply IH|].
    intros [= <- <-]. by left.
Qed.

(** ** Whitespace and letters *)








Lemma keys_unique (m : dict) (k : str) (v t : json) :
  NoDup (keys m) -> (k, v) ∈ m -> (k, t) ∈ m -> v = t.
Proof.
  unfold keys. induction m as [|[k0 v0] m IH]; simpl; intros Hnd Hv Ht.
  - by apply elem_of_nil in Hv.
  - apply NoDup_cons in Hnd as [Hk0 Hnd].
    apply elem_of_cons in Hv as [Hv|Hv]; apply elem_of_cons in Ht as [Ht|Ht];
      simplify_eq; try done; try by apply IH.
    + destruct Hk0. apply list_elem_of_fmap. by exists (k0, t).
    + destruct Hk0. apply list_elem_of_fmap. by exists (k0, v).
Qed.



(** ** One entry of a whitelisted mapping *)

Local Open Scope Z_scope.

Lemma fill_entry_step (original : str) (translated : json) (mapping : dict)
    (st : State) :
  entry_step original translated mapping st (fill_entry original translated mapping st).
Proof.
  unfold fill_entry.
  destruct (is_empty_value translated) eqn:Hempty; cbn [negb];
    [|by apply step_not_empty].
  destruct (_contains_letters original) eqn:Hletters; cbn [negb];
    [|apply step_high_risk; auto].
  destruct (is_high_risk original) eqn:Hrisk; [apply step_high_risk; auto|].
  fold (uiish original).
  destruct (arg_require_uppercase_start args && negb (uiish original)) eqn:Hui.
  { apply andb_true_iff in Hui as [Hflag Hui]. apply negb_true_iff in Hui.
    by apply step_not_uiish. }
  assert (arg_require_uppercase_start args = true -> uiish original = true) as Hui'.
  { intros Hflag. rewrite Hflag in Hui. simpl in Hui. by apply negb_false_iff. }
  destruct (mask original) as [masked placeholders] eqn:Hmask.
  destruct (_translate_with_retries masked _) as [[ok out] st1] eqn:Htr.
  destruct ok; cbn [negb].
  2:{ eapply step_translation_failed; eauto. by rewrite Hmask. }
  destruct (_unmask_placeholders out placeholders) as [ok2 unmasked] eqn:Hun.
  destruct ok2; cbn [negb].
  2:{ eapply step_unmask_failed; eauto; by rewrite Hmask. }
  destruct (has_chinese (strip unmasked)) eqn:Hzh; cbn [negb].
  2:{ eapply step_no_chinese; eauto; by rewrite Hmask. }
  cbn [filled_local].
  pose proof (step_filled original translated mapping st out st1 unmasked) as S.
  rewrite Hmask in S. cbn [fst snd] in S. unfold count_fill in S.
  destruct (arg_max args <=? filled_local st1 + 1); by apply S.
Qed.

(** The retry loop touches neither the statistics nor the local counter,
    and it only appends to the request log. *)
Lemma translate_attempts_frame (n : nat) (text err : str) (st : State) :
  let '(ok, out, st') := translate_attempts n text err st in
  stats st' = stats st /\ filled_local st' = filled_local st
  /\ exists sent, requests st' = requests st ++ sent.
Proof.
  revert err st; induction n as [|n IH]; intros err st; simpl.
  - split_and!; [done..|]. exists []. by rewrite app_nil_r.
  - destruct (google_translate _ text) as [out|e].
    + destruct (strip out) as [|c out'].
      * specialize (IH (py "empty translation")
          (mkState (stats st) (cache st) (filled_local st) (requests st ++ [text]))).
        destruct (translate_attempts _ _ _ _) as [[ok o] st'].
        destruct IH as (-> & -> & sent & ->). split_and!; [done..|].
        exists ([text] ++ sent). by rewrite app_assoc.
      * simpl. split_and!; [done..|]. by exists [text].
    + specialize (IH e
        (mkState (stats st) (cache st) (filled_local st) (requests st ++ [text]))).
      destruct (translate_attempts _ _ _ _) as [[ok o] st'].
      destruct IH as (-> & -> & sent & ->). split_and!; [done..|].
      exists ([text] ++ sent). by rewrite app_assoc.
Qed.

Lemma translate_frame (text : str) (st : State) (ok : bool) (out : str)
    (st' : State) :
  _translate_with_retries text st = (ok, out, st') ->
  stats st' = stats st /\ filled_local st' = filled_local st
  /\ exists sent, requests st' = requests st ++ sent.
Proof.
  unfold _translate_with_retries. destruct (cache st !! text).
  - intros [= <- <- <-]. split_and!; [done..|]. exists []. by rewrite app_nil_r.
  - intros H. pose proof (translate_attempts_frame 3 text (py "None") st) as F.
    by rewrite H in F.
Qed.

(** ** What the pass may change *)

Lemma entry_frame_refl (m0 : dict) (l : dict) : Forall2 (entry_frame m0) l l.
Proof. induction l; constructor; [by split; [|left] | done]. Qed.

Lemma dict_set_frame (m0 l m : dict) (k : str) (v : json) :
  Forall2 (entry_frame m0) l m -> k ∈ keys l ->
  (exists t, (k, t) ∈ m0 /\ is_empty_value t = true) ->
  fill_conditions k -> filled_value k v ->
  Forall2 (entry_frame m0) l (dict_set k v m).
Proof.
  intros HF Hin Hempty Hcond Hval.
  induction HF as [|[k0 v0] [k0' v0'] l m [Hk Hv] HF IH]; simpl in *.
  - by apply elem_of_nil in Hin.
  - subst k0'. case_bool_decide as Hk0.
    + subst k0. constructor; [|done]. split; [done|]. right. done.
    + constructor; [by split|]. apply IH.
      unfold keys in Hin. simpl in Hin.
      apply elem_of_cons in Hin as [->|Hin]; [done|]. done.
Qed.

Lemma entry_step_frame (m0 m m' : dict) (o : str) (t : json) (st st' : State)
    (fl : flow) :
  entry_step o t m st (m', st', fl) -> (o, t) ∈ m0 ->
  Forall2 (entry_frame m0) m0 m -> Forall2 (entry_frame m0) m0 m'.
Proof.
  intros Hstep Hin HF. inversion Hstep; subst; try done.
  apply dict_set_frame; [done | | eauto | done | by eexists _, _].
  unfold keys. apply list_elem_of_fmap. by exists (o, t).
Qed.

Lemma fill_mapping_frame (m0 items m : dict) (st : State) :
  items ⊆ m0 -> Forall2 (entry_frame m0) m0 m ->
  Forall2 (entry_frame m0) m0 (fill_mapping items m st).1.
Proof.
  revert m st; induction items as [|[o t] items IH]; intros m st Hsub HF; [done|].
  cbn [fill_mapping].
  pose proof (fill_entry_step o t m st) as Hstep.
  destruct (fill_entry o t m st) as [[m' st'] fl].
  assert (Forall2 (entry_frame m0) m0 m') as HF'.
  { eapply entry_step_frame; [done| |done]. apply Hsub. left. }
  destruct fl; [|done].
  apply IH; [|done]. intros e He. apply Hsub. by right.
Qed.

Lemma fill_document_frame (prefixes : list str) (data : dict) (st : State) :
  Forall2 (member_frame prefixes) data (fill_document prefixes data st).1.
Proof.
  revert st; induction data as [|[fp v] data IH]; intros st; [constructor|].
  assert (forall st0, Forall2 (member_frame prefixes) ((fp, v) :: data)
            (let '(rest, st1) := fill_document prefixes data st0 in
             ((fp, v) :: rest, st1)).1) as Hskip.
  { intros st0. specialize (IH st0).
    destruct (fill_document prefixes data st0) as [rest st1].
    constructor; [by split; [|left] | done]. }
  destruct v as [| | | | |items|mapping]; try apply Hskip.
  cbn [fill_document].
  destruct (_path_whitelisted fp prefixes) eqn:Hwl; cbn [negb]; [|apply Hskip].
  pose proof (fill_mapping_frame mapping mapping mapping st) as HM.
  destruct (fill_mapping mapping mapping st) as [mapping' st'].
  assert (member_frame prefixes (fp, JObj mapping) (fp, JObj mapping')) as Hhead.
  { split; [done|]. right. exists mapping, mapping'. split_and!; try done.
    apply HM; [done | apply entry_frame_refl]. }
  destruct (arg_max args <=? filled_local st').
  - constructor; [done|]. clear. induction data; constructor; [|done].
    by split; [|left].
  - specialize (IH st'). destruct (fill_document prefixes data st') as [rest st1].
    by constructor.
Qed.

(** ** Counters *)

Lemma entry_step_partition (o : str) (t : json) (m m' : dict) (st st' : State)
    (fl : flow) :
  entry_step o t m st (m', st', fl) ->
  partition_ok (stats st) -> partition_ok (stats st').
Proof.
  unfold partition_ok. intros Hstep [H1 H2].
  inversion Hstep; subst; try done;
    try (match goal with H : _translate_with_retries _ _ = _ |- _ =>
           apply translate_frame in H as (Hs & _ & _) end;
         simpl in *; rewrite Hs; simpl; lia);
    simpl; lia.
Qed.


Lemma fill_mapping_partition (items m : dict) (st : State) :
  partition_ok (stats st) -> partition_ok (stats (fill_mapping items m st).2).
Proof.
  revert m st; induction items as [|[o t] items IH]; intros m st H; [done|].
  cbn [fill_mapping]. pose proof (fill_entry_step o t m st) as Hstep.
  destruct (fill_entry o t m st) as [[m' st'] fl].
  apply entry_step_partition in Hstep; [|done].
  destruct fl; [by apply IH | done].
Qed.


Lemma count_empties_frame (mapping : dict) (st : State) :
  count_empties mapping st = skip_not_whitelisted (empty_values mapping) st.
Proof.
  unfold skip_not_whitelisted, empty_values.
  revert st; induction mapping as [|[k v] mapping IH]; intros st; simpl.
  - destruct st as [[] ? ? ?]; simpl. by rewrite !Z.add_0_r.
  - destruct (is_empty_value v); simpl; [|apply IH].
    rewrite IH. simpl. f_equal. f_equal; lia.
Qed.

Lemma fill_document_partition (prefixes : list str) (data : dict) (st : State) :
  partition_ok (stats st) ->
  partition_ok (stats (fill_document prefixes data st).2).
Proof.
  revert st; induction data as [|[fp v] data IH]; intros st H; [done|].
  assert (forall st0, partition_ok (stats st0) ->
            partition_ok (stats
              (let '(rest, st1) := fill_document prefixes data st0 in
               ((fp, v) :: rest, st1)).2)) as Hskip.
  { intros st0 H0. specialize (IH st0 H0).
    by destruct (fill_document prefixes data st0). }
  destruct v as [| | | | |items|mapping]; try by apply Hskip.
  cbn [fill_document].
  destruct (_path_whitelisted fp prefixes); cbn [negb].
  - pose proof (fill_mapping_partition mapping mapping st H) as HM.
    destruct (fill_mapping mapping mapping st) as [mapping' st'].
    destruct (arg_max args <=? filled_local st'); [done|].
    specialize (IH st' HM). by destruct (fill_document prefixes data st').
  - specialize (IH (count_empties mapping st)).
    destruct (fill_document prefixes data (count_empties mapping st)).
    apply IH. rewrite count_empties_frame. unfold partition_ok in *.
    simpl. lia.
Qed.




(** ** The run *)

Lemma State_init_partition : partition_ok (stats State_init).
Proof. by split. Qed.


Lemma frame_keys (m0 m m' : dict) :
  Forall2 (entry_frame m0) m m' -> keys m' = keys m.
Proof.
  unfold keys. induction 1 as [|e e' m m' [He _] _ IH]; [done|].
  csimpl. by rewrite He, IH.
Qed.

Lemma member_frame_keys (prefixes : list str) (d d' : dict) :
  Forall2 (member_frame prefixes) d d' -> keys d' = keys d.
Proof.
  unfold keys. induction 1 as [|e e' d d' [He _] _ IH]; [done|].
  csimpl. by rewrite He, IH.
Qed.

(** The mapping found in the output at the place of an input mapping. *)
Lemma run_mapping (data : dict) (i : nat) (fp : str) (m : dict) :
  data !! i = Some (fp, JObj m) ->
  exists m',
    (main data).1 !! i = Some (fp, JObj m')
    /\ Forall2 (entry_frame m) m m'
    /\ (m' = m \/ _path_whitelisted fp (effective_prefixes args) = true).
Proof.
  intros Hi. unfold main.
  pose proof (fill_document_frame (effective_prefixes args) data State_init) as HF.
  destruct (Forall2_lookup_l _ _ _ _ _ HF Hi) as ([fp' v'] & Hi' & Hfp & Hv).
  simpl in *. subst fp'. destruct Hv as [<- | (m1 & m' & Hm1 & -> & Hwl & HM)].
  - exists m. split_and!; [done | apply entry_frame_refl | by left].
  - simplify_eq. exists m'. split_and!; [done | done | by right].
Qed.

(** The entry found in an output mapping at the place of an input entry. *)
Lemma frame_entry (m m' : dict) (j : nat) (k : str) (v : json) :
  Forall2 (entry_frame m) m m' -> m !! j = Some (k, v) ->
  exists v',
    m' !! j = Some (k, v')
    /\ (v' = v
        \/ ((exists t, (k, t) ∈ m /\ is_empty_value t = true)
            /\ fill_conditions k /\ filled_value k v')).
Proof.
  intros HF Hj.
  destruct (Forall2_lookup_l _ _ _ _ _ HF Hj) as ([k' v'] & Hj' & Hk & Hv).
  simpl in *. subst k'. exists v'. split; [done|].
  destruct Hv as [-> | Hv]; [by left | by right].
Qed.

(** [C9]: after every run the outcome counters add up to the number of
    empty entries scanned, and the three outcomes of an eligible entry add
    up to [eligible]. *)
Theorem stats_partition (data : dict) :
  let s := stats (main data).2 in
  scanned_empty s
  = filled s + skipped_high_risk s + skipped_not_whitelisted s
    + skipped_not_uiish s + skipped_translation_failed s + skipped_no_chinese s
  /\ eligible s = filled s + skipped_translation_failed s + skipped_no_chinese s.
Proof.
  apply (fill_document_partition (effective_prefixes args) data State_init).
  apply State_init_partition.
Qed.


(** [C5]: the output has the file-path keys of the input in the same
    order, each mapping has the original-string keys of its input mapping
    in the same order, and a member that is not a mapping is unchanged. *)
Theorem keys_and_order_preserved (data : dict) :
  keys (main data).1 = keys data
  /\ Forall2
       (fun e e' =>
          e'.1 = e.1
          /\ match e.2 with
             | JObj m => exists m', e'.2 = JObj m' /\ keys m' = keys m
             | v => e'.2 = v
             end)
       data (main data).1.
Proof.
  unfold main.
  pose proof (fill_document_frame (effective_prefixes args) data State_init) as HF.
  split.
  - by apply (member_frame_keys (effective_prefixes args)).
  - eapply Forall2_impl; [exact HF|].
    intros [fp v] [fp' v'] [Hfp Hv]; simpl in *. split; [done|].
    destruct Hv as [<- | (m & m' & -> & -> & _ & HM)].
    + destruct v; try done. by eexists.
    + exists m'. split; [done|]. by apply (frame_keys m).
Qed.

(** The two checks of the loop body decide exactly these classes. *)
Lemma classified_high_risk_checked (text : str) :
  classified_high_risk text
  <-> _contains_letters text = false \/ is_high_risk text = true.
Proof.
  unfold classified_high_risk, _is_high_risk. cbv zeta.
  generalize (strip text) as t. intros t.
  case_bool_decide as Ht; [tauto|].
  destruct (Nat.ltb_spec 180 (length t)); [tauto|].
  cbn [existsb].
  destruct (contains (py "://") t); [tauto|].
  destruct (startswith (py "mailto:") t); [tauto|].
  destruct (_RE_FILELIKE_search t); [tauto|].
  destruct (_RE_IDENTIFIER_fullmatch t); [tauto|].
  destruct (contains (py "::") t); [tauto|].
  destruct (contains (py "->") t); [tauto|].
  destruct (contains (py "=>") t); [tauto|].
  destruct (_RE_DEBUG_FMT_search t); [tauto|].
  destruct (_RE_PUNCT_ONLY_fullmatch unicode_alnum t); [tauto|].
  destruct (_RE_NUMBER_ONLY_fullmatch unicode_decimal t); [tauto|].
  destruct (contains (py " ") t); cbn [negb orb andb];
    [intuition (congruence || lia)|].
  destruct (_RE_CAMEL_NO_SPACE_fullmatch t); cbn [andb];
    [|intuition (congruence || lia)].
  destruct (existsb is_ascii_lower t); cbn [andb];
    [|intuition (congruence || lia)].
  destruct (existsb is_ascii_upper t); intuition (congruence || lia).
Qed.

(** [C1]: an entry whose original string is classified high-risk is
    passed over by the loop body without a request to the endpoint and
    without a change of the cache or the mapping, and the output document
    holds its input value at its place. *)
Theorem high_risk_never_translated (data : dict) (i : nat) (file_path : str)
    (m : dict) (j : nat) (original : str) (v : json) :
  data !! i = Some (file_path, JObj m) ->
  m !! j = Some (original, v) ->
  classified_high_risk original ->
  (forall mapping st, exists st',
      fill_entry original v mapping st = (mapping, st', Continue)
      /\ requests st' = requests st /\ cache st' = cache st)
  /\ exists m',
       (main data).1 !! i = Some (file_path, JObj m')
       /\ m' !! j = Some (original, v).
Proof.
  intros Hi Hj Hrisk. apply classified_high_risk_checked in Hrisk. split.
  - intros mapping st. pose proof (fill_entry_step original v mapping st) as Hstep.
    inversion Hstep; subst;
      try (destruct Hrisk; congruence); eexists; split_and!; done.
  - destruct (run_mapping data i file_path m Hi) as (m' & Hi' & HF & _).
    exists m'. split; [done|].
    destruct (frame_entry m m' j original v HF Hj) as (v' & Hj' & [-> | Hv]);
      [done|].
    destruct Hv as (_ & (Hl & Hr & _) & _). destruct Hrisk; congruence.
Qed.

(** [C3]: in a mapping, whose keys are distinct as those of any
    dictionary, an entry whose value is neither [None] nor the empty
    string has the same value in the output. *)
Theorem nonempty_values_kept (data : dict) (i : nat) (file_path : str)
    (m : dict) (j : nat) (original : str) (v : json) :
  data !! i = Some (file_path, JObj m) ->
  NoDup (keys m) ->
  m !! j = Some (original, v) ->
  is_empty_value v = false ->
  exists m',
    (main data).1 !! i = Some (file_path, JObj m')
    /\ m' !! j = Some (original, v).
Proof.
  intros Hi Hnd Hj Hv.
  destruct (run_mapping data i file_path m Hi) as (m' & Hi' & HF & _).
  exists m'. split; [done|].
  destruct (frame_entry m m' j original v HF Hj) as (v' & Hj' & [-> | Hc]);
    [done|].
  destruct Hc as ((t & Ht & Hempty) & _).
  assert (v = t) as ->; [|congruence].
  apply (keys_unique m original); [done | | done].
  by apply list_elem_of_lookup_2 with j.
Qed.

(** [C7]: a member whose path starts with none of the prefixes in force
    is found unchanged in the output, and the document loop passes over it
    with the state changed only in the two counters [scanned_empty] and
    [skipped_not_whitelisted], both by the number of its empty values.
    The prefixes in force are those of [--prefix], or the ten defaults
    under zed/crates/ when there is none. *)
Theorem not_whitelisted_untouched (data : dict) (i : nat) (file_path : str)
    (v : json) :
  data !! i = Some (file_path, v) ->
  _path_whitelisted file_path (effective_prefixes args) = false ->
  (main data).1 !! i = Some (file_path, v)
  /\ (forall rest st,
       fill_document (effective_prefixes args) ((file_path, v) :: rest) st
       = let st0 :=
           match v with
           | JObj mapping => skip_not_whitelisted (empty_values mapping) st
           | _ => st
           end in
         ((file_path, v) :: (fill_document (effective_prefixes args) rest st0).1,
          (fill_document (effective_prefixes args) rest st0).2))
  /\ effective_prefixes args
     = (if bool_decide (arg_prefix args = []) then DEFAULT_PREFIX_WHITELIST
        else arg_prefix args)
  /\ length DEFAULT_PREFIX_WHITELIST = 10%nat
  /\ Forall (fun p => startswith (py "zed/crates/") p = true)
       DEFAULT_PREFIX_WHITELIST.
Proof.
  intros Hi Hwl. split; [|split; [|split; [|split]]];
    [| | unfold effective_prefixes; by destruct (arg_prefix args)
     | reflexivity | by repeat constructor].
  - unfold main.
    pose proof (fill_document_frame (effective_prefixes args) data State_init) as HF.
    destruct (Forall2_lookup_l _ _ _ _ _ HF Hi) as ([fp' v'] & Hi' & Hfp & Hv).
    simpl in *. subst fp'.
    destruct Hv as [<- | (m & m' & _ & _ & Hwl' & _)]; [done | congruence].
  - intros rest st. destruct v; cbn [fill_document];
      try by destruct (fill_document _ rest st).
    rewrite Hwl. cbn [negb]. rewrite count_empties_frame.
    by destruct (fill_document _ rest _).
Qed.



(** * Further properties *)

(** ** Stripping *)

Local Open Scope nat_scope.

Lemma lstrip_starts_visible (s : str) : starts_visible (lstrip s).
Proof.
  induction s as [|c s IH]; simpl; [done|].
  destruct (is_space c) eqn:E; [done|]. simpl. done.
Qed.

Lemma lstrip_fixed (s : str) : starts_visible s -> lstrip s = s.
Proof. destruct s as [|c s]; simpl; [done|]. by intros ->. Qed.

Lemma lstrip_suffix (s : str) : exists ws, s = ws ++ lstrip s.
Proof.
  induction s as [|c s [ws IH]]; simpl; [by exists []|].
  destruct (is_space c); [|by exists []].
  exists (c :: ws). simpl. by rewrite <- IH.
Qed.

Lemma lstrip_app (a b : str) : lstrip a <> [] -> lstrip (a ++ b) = lstrip a ++ b.
Proof.
  induction a as [|c a IH]; simpl; [done|].
  destruct (is_space c); [done|]. done.
Qed.

Lemma rstrip_prefix (s : str) : exists ws, s = rstrip s ++ ws.
Proof.
  unfold rstrip. destruct (lstrip_suffix (rev s)) as [ws H].
  exists (rev ws). rewrite <- rev_app_distr, <- H. by rewrite rev_involutive.
Qed.

Lemma rstrip_fixed (s : str) : starts_visible (rev s) -> rstrip s = s.
Proof.
  intros H. unfold rstrip. rewrite lstrip_fixed by done. apply rev_involutive.
Qed.

(** The stripped text is a piece of the text. *)
Lemma strip_substring (s : str) : exists a b, s = a ++ strip s ++ b.
Proof.
  unfold strip. destruct (rstrip_prefix s) as [b Hb].
  destruct (lstrip_suffix (rstrip s)) as [a Ha].
  exists a, b. rewrite app_assoc, <- Ha. exact Hb.
Qed.

Lemma strip_ends_visible (s : str) : starts_visible (rev (strip s)).
Proof.
  unfold strip. pose proof (lstrip_starts_visible (rev s)) as H.
  destruct (lstrip_suffix (rstrip s)) as [ws Hws].
  assert (rev (rstrip s) = lstrip (rev s)) as Hr.
  { unfold rstrip. apply rev_involutive. }
  rewrite <- Hr, Hws, rev_app_distr in H.
  destruct (rev (lstrip (rstrip s))) as [|c x]; [done|]. exact H.
Qed.

(** Stripping a stripped text changes nothing. *)
Lemma strip_idempotent (s : str) : strip (strip s) = strip s.
Proof.
  unfold strip at 1. rewrite rstrip_fixed by apply strip_ends_visible.
  apply lstrip_fixed. unfold strip. apply lstrip_starts_visible.
Qed.

Lemma contains_strip (p s : str) :
  contains p (strip s) = true -> contains p s = true.
Proof.
  rewrite !contains_spec. intros (l & r & H).
  destruct (strip_substring s) as (a & b & Hs).
  exists (a ++ l), (r ++ b). rewrite Hs, H. by rewrite <- !app_assoc.
Qed.

Lemma lstrip_spaces (ws x : str) :
  Forall (fun c => is_space c = true) ws -> lstrip (ws ++ x) = lstrip x.
Proof. induction 1 as [|c ws Hc _ IH]; simpl; [done|]. by rewrite Hc. Qed.

Lemma lstrip_all_spaces (ws : str) :
  Forall (fun c => is_space c = true) ws -> lstrip ws = [].
Proof. intros H. rewrite <- (app_nil_r ws). by rewrite lstrip_spaces. Qed.

Lemma lstrip_nil_spaces (x : str) :
  lstrip x = [] -> Forall (fun c => is_space c = true) x.
Proof.
  induction x as [|c x IH]; simpl; [constructor|].
  destruct (is_space c) eqn:E; [|done]. intros H. constructor; auto.
Qed.

(** White space around a text does not change what stripping returns. *)
Lemma strip_padding (ws1 s ws2 : str) :
  Forall (fun c => is_space c = true) ws1 ->
  Forall (fun c => is_space c = true) ws2 ->
  strip (ws1 ++ s ++ ws2) = strip s.
Proof.
  intros H1 H2. unfold strip, rstrip.
  rewrite !rev_app_distr, <- app_assoc.
  rewrite lstrip_spaces by (by apply Forall_rev).
  destruct (lstrip (rev s)) as [|c x] eqn:E.
  - rewrite (lstrip_all_spaces (rev s ++ rev ws1)); [done|].
    apply Forall_app. split; [by apply lstrip_nil_spaces | by apply Forall_rev].
  - rewrite lstrip_app by (by rewrite E). rewrite E.
    rewrite rev_app_distr, rev_involutive. by rewrite lstrip_spaces.
Qed.

(** ** The risk filter *)

Lemma fullmatch_plus_spec (cls : char -> bool) (t : str) :
  fullmatch_plus cls t = true <-> t <> [] /\ forallb cls t = true.
Proof.
  destruct t; simpl.
  - split; [done | by intros [? _]].
  - split; [by split | by intros [_ ?]].
Qed.

Lemma word_char_not_upper (c : char) :
  is_ascii_alnum c || (c =? 95)%N = true -> is_ascii_upper c = false ->
  identifier_char c = true.
Proof.
  unfold identifier_char, is_ascii_alnum, is_ascii_letter. intros H Hu.
  rewrite Hu in H. simpl in H.
  destruct (is_ascii_lower c); [done|]. destruct (is_ascii_digit c); [done|].
  simpl in *. by rewrite H.
Qed.

Lemma word_chars_lowercase (t : str) :
  forallb (fun c => is_ascii_alnum c || (c =? 95)%N) t = true ->
  existsb is_ascii_upper t = false ->
  forallb identifier_char t = true.
Proof.
  induction t as [|c t IH]; simpl; [done|].
  rewrite andb_true_iff, orb_false_iff. intros [Hc Ht] [Hu Hus].
  rewrite word_char_not_upper by done. by apply IH.
Qed.

Lemma word_chars_no_space (t : str) :
  forallb (fun c => is_ascii_alnum c || (c =? 95)%N) t = true ->
  contains (py " ") t = false.
Proof.
  intros H. apply contains_false. intros l r ->.
  rewrite forallb_app in H. apply andb_true_iff in H as [_ H].
  simpl in H. discriminate.
Qed.

(** [X1]: a single word of letters, digits and underscores that has a lowercase
    letter is high-risk: with an uppercase letter beside it the word is
    CamelCase, without one it is a lowercase identifier. *)
Theorem single_word_with_lowercase_high_risk (text : str) :
  _RE_CAMEL_NO_SPACE_fullmatch (strip text) = true ->
  existsb is_ascii_lower (strip text) = true ->
  is_high_risk text = true.
Proof.
  unfold _RE_CAMEL_NO_SPACE_fullmatch. rewrite fullmatch_plus_spec.
  intros [Hne Hall] Hlow.
  unfold _is_high_risk. cbv zeta. generalize dependent (strip text). intros t.
  intros Hne Hall Hlow.
  case_bool_decide; [done|].
  destruct (180 <? length t)%nat; [done|].
  destruct (contains (py "://") t || startswith (py "mailto:") t); [done|].
  destruct (_RE_FILELIKE_search t); [done|].
  destruct (_RE_IDENTIFIER_fullmatch t) eqn:Hid; [done|].
  destruct (existsb _ [py "::"; py "->"; py "=>"]); [done|].
  destruct (_RE_DEBUG_FMT_search t); [done|].
  destruct (_ || _); [done|].
  rewrite word_chars_no_space by done.
  unfold _RE_CAMEL_NO_SPACE_fullmatch.
  rewrite (proj2 (fullmatch_plus_spec _ t)) by done.
  rewrite Hlow. cbn [negb andb].
  destruct (existsb is_ascii_upper t) eqn:Hup; [done|].
  unfold _RE_IDENTIFIER_fullmatch in Hid.
  rewrite (proj2 (fullmatch_plus_spec _ t)) in Hid; [done|].
  split; [done|]. by apply word_chars_lowercase.
Qed.

(** [X2]: padding a text with white space does not change the verdict. *)
Theorem is_high_risk_padding (ws1 text ws2 : str) :
  Forall (fun c => is_space c = true) ws1 ->
  Forall (fun c => is_space c = true) ws2 ->
  is_high_risk (ws1 ++ text ++ ws2) = is_high_risk text.
Proof. intros H1 H2. unfold _is_high_risk. by rewrite strip_padding. Qed.

(** [X3]: the safe single words add nothing to the uppercase test: a text whose
    stripped form is one of them starts with an uppercase letter; and each
    of them but OK is high-risk. *)
Theorem safe_single_words_subsumed (src : str) :
  strip src ∈ SAFE_SINGLE_WORDS ->
  _uppercase_start src = true
  /\ (strip src <> py "OK" -> is_high_risk src = true).
Proof.
  intros Hin.
  assert (exists c r, strip src = c :: r /\ is_ascii_upper c = true) as Hhead.
  { unfold SAFE_SINGLE_WORDS in Hin.
    repeat (apply elem_of_cons in Hin as [-> | Hin]; [by eexists _, _|]).
    by apply elem_of_nil in Hin. }
  split.
  - destruct Hhead as (c & r & Hs & Hc). unfold _uppercase_start.
    destruct (rstrip_prefix src) as [ws Hws]. rewrite Hws.
    unfold strip in Hs. rewrite lstrip_app by (by rewrite Hs). by rewrite Hs.
  - intros Hok. unfold SAFE_SINGLE_WORDS in Hin. unfold _is_high_risk.
    repeat (apply elem_of_cons in Hin as [Hs | Hin];
            [first [done | by rewrite Hs; vm_compute]|]).
    by apply elem_of_nil in Hin.
Qed.

(** ** Masking *)

Lemma mask_go_plain (nd : char -> bool) (fuel : nat) (s : str) (phs : list str) :
  forallb (fun c => negb (placeholder_start c)) s = true ->
  mask_go nd fuel s phs = (s, phs).
Proof.
  revert s; induction fuel as [|fuel IH]; intros s H; [done|].
  destruct s as [|c s]; [done|]. simpl in H.
  apply andb_true_iff in H as [Hc Hs]. apply negb_true_iff in Hc.
  unfold placeholder_start in Hc. apply orb_false_iff in Hc as [Hc H36].
  apply orb_false_iff in Hc as [H123 H37].
  cbn [mask_go]. unfold match_placeholder. rewrite H123, H37, H36.
  by rewrite IH.
Qed.

(** [X4]: a text without a brace, percent or dollar sign is masked to itself,
    with no placeholder recorded. *)
Theorem mask_without_placeholder_start (text : str) :
  forallb (fun c => negb (placeholder_start c)) text = true ->
  mask text = (text, []).
Proof. apply mask_go_plain. Qed.

Lemma match_placeholder_shape (nd : char -> bool) (s m rest : str) :
  match_placeholder nd s = Some (m, rest) ->
  exists c r, m = c :: r /\ placeholder_start c = true /\ r <> [].
Proof.
  destruct s as [|c r]; [done|]. simpl. unfold placeholder_start.
  destruct (c =? 123)%N eqn:E1.
  { destruct (span _ r) as [body tl]. destruct tl as [|close tl']; [done|].
    intros [= <- <-]. eexists _, _. split; [done|]. rewrite E1.
    split; [done|]. by destruct body. }
  destruct (c =? 37)%N eqn:E2.
  { destruct (percent_tail nd r) as [[m' rest']|] eqn:E; [|done].
    intros [= <- <-]. eexists _, _. split; [done|]. rewrite E1, E2.
    split; [done|]. unfold percent_tail in E.
    destruct (span (is_digit nd) r) as [ds r1].
    destruct r1 as [|x r1']; [done|].
    destruct (x =? 36)%N.
    - destruct r1' as [|l r3]; [done|]. destruct (is_ascii_letter l); [|done].
      simplify_eq. by destruct ds.
    - destruct (is_ascii_letter x); [|done]. simplify_eq. by destruct ds. }
  destruct (c =? 36)%N eqn:E3; [|done].
  destruct r as [|open r1]; [done|]. destruct (open =? 123)%N; [|done].
  destruct (span _ r1) as [body tl].
  destruct body as [|b body]; [done|]. destruct tl as [|close tl']; [done|].
  intros [= <- <-]. eexists _, _. split; [done|]. rewrite E1, E2, E3. done.
Qed.

Lemma mask_go_shape (nd : char -> bool) (P : str -> Prop) (fuel : nat) (s : str)
    (phs : list str) :
  (forall t m rest, match_placeholder nd t = Some (m, rest) -> P m) ->
  Forall P phs -> Forall P (mask_go nd fuel s phs).2.
Proof.
  intros HP. revert s phs; induction fuel as [|fuel IH]; intros s phs H; [done|].
  destruct s as [|c s]; [done|]. cbn [mask_go].
  destruct (match_placeholder nd (c :: s)) as [[m rest]|] eqn:E.
  - specialize (IH rest (phs ++ [m])).
    destruct (mask_go nd fuel rest (phs ++ [m])) as [out phs'].
    apply IH. apply Forall_app. split; [done|].
    constructor; [|constructor]. by eapply HP.
  - specialize (IH s phs H). by destruct (mask_go nd fuel s phs).
Qed.

(** [X5]: every placeholder that masking records starts with a brace, percent or
    dollar sign, has at least two characters, and occurs in the text. *)
Theorem mask_placeholders_shape (text : str) :
  Forall
    (fun ph =>
       (exists c r, ph = c :: r /\ placeholder_start c = true /\ r <> [])
       /\ contains ph text = true)
    (mask text).2.
Proof.
  apply Forall_and. split.
  - apply mask_go_shape; [|constructor].
    intros t m rest. apply match_placeholder_shape.
  - unfold _mask_placeholders.
    destruct (mask_go_chunks unicode_decimal (length text) text [])
      as (chunks & last & Hs & ->); [done|].
    simpl. rewrite Hs. clear Hs.
    induction chunks as [|[seg ph] chunks IH]; simpl; constructor.
    + apply contains_spec. by exists seg, (plain chunks last).
    + eapply Forall_impl; [exact IH|]. intros p. simpl.
      rewrite !contains_spec. intros (l & r & ->).
      exists (seg ++ ph ++ l), r. by rewrite <- !app_assoc.
Qed.

(** ** Unmasking *)

(** [X6]: when unmasking reports success, no token prefix is left in the text it
    returns; when it reports failure, it returns the text it was given or
    a text that still holds a token prefix. *)
Theorem unmask_result (text : str) (placeholders : list str) (ok : bool)
    (res : str) :
  _unmask_placeholders text placeholders = (ok, res) ->
  if ok then contains (py "__PH") res = false
  else res = text \/ contains (py "__PH") res = true.
Proof. apply unmask_from_result. Qed.

(** ** The retry loop and its cache *)

Lemma translate_attempts_log (n : nat) (text err : str) (st : State) :
  let '(ok, out, st') := translate_attempts n text err st in
  exists k,
    k <= n
    /\ requests st' = requests st ++ replicate k text
    /\ stats st' = stats st /\ filled_local st' = filled_local st
    /\ if ok then
         cache st' = <[text := out]> (cache st) /\ out <> [] /\ strip out = out
       else k = n /\ cache st' = cache st.
Proof.
  revert err st; induction n as [|n IH]; intros err st; simpl.
  - exists 0. split_and!; try done. by rewrite app_nil_r.
  - destruct (google_translate _ text) as [reply|e].
    + destruct (strip reply) as [|c out'] eqn:E.
      * specialize (IH (py "empty translation")
          (mkState (stats st) (cache st) (filled_local st) (requests st ++ [text]))).
        destruct (translate_attempts _ _ _ _) as [[ok o] st'].
        destruct IH as (k & Hk & Hr & Hs & Hf & Hc). simpl in *.
        exists (S k). split_and!; [lia | | done | done |].
        -- rewrite Hr, <- app_assoc. done.
        -- destruct ok; [done|]. destruct Hc as [-> ?]. done.
      * exists 1. simpl. split_and!; try done; [lia|].
        rewrite <- E. apply strip_idempotent.
    + specialize (IH e
        (mkState (stats st) (cache st) (filled_local st) (requests st ++ [text]))).
      destruct (translate_attempts _ _ _ _) as [[ok o] st'].
      destruct IH as (k & Hk & Hr & Hs & Hf & Hc). simpl in *.
      exists (S k). split_and!; [lia | | done | done |].
      * rewrite Hr, <- app_assoc. done.
      * destruct ok; [done|]. destruct Hc as [-> ?]. done.
Qed.

Lemma translate_log (text : str) (st : State) (ok : bool) (out : str)
    (st' : State) :
  _translate_with_retries text st = (ok, out, st') ->
  exists k,
    k <= 3
    /\ requests st' = requests st ++ replicate k text
    /\ stats st' = stats st /\ filled_local st' = filled_local st
    /\ (cache_ok (cache st) -> cache_ok (cache st'))
    /\ if ok then
         cache st' !! text = Some out
         /\ (cache_ok (cache st) -> out <> [] /\ strip out = out)
         /\ (is_Some (cache st !! text) -> k = 0 /\ st' = st)
       else k = 3 /\ cache st' = cache st /\ cache st !! text = None.
Proof.
  unfold _translate_with_retries. destruct (cache st !! text) as [hit|] eqn:E.
  - intros [= <- <- <-]. exists 0. rewrite app_nil_r.
    split_and!; try done; [lia|]. intros Hok. by apply (Hok text).
  - intros H. pose proof (translate_attempts_log 3 text (py "None") st) as L.
    rewrite H in L. destruct L as (k & Hk & Hr & Hs & Hf & Hc).
    exists k. split_and!; try done.
    + destruct ok; [|by destruct Hc as [_ ->]].
      destruct Hc as (-> & Hne & Hst). intros Hok t o.
      rewrite lookup_insert. case_decide; [|apply Hok].
      intros [= <-]. done.
    + destruct ok.
      * destruct Hc as (-> & Hne & Hst). split_and!.
        -- by rewrite lookup_insert_eq.
        -- done.
        -- intros [? ?]. done.
      * by destruct Hc as [-> ->].
Qed.

(** [X7]: a text translated with success is answered from the cache from then
    on: the same call on the state it left returns the same translation
    and leaves that state as it is, so no request is sent. *)
Theorem translate_memoised (text : str) (st : State) (out : str) (st' : State) :
  _translate_with_retries text st = (true, out, st') ->
  _translate_with_retries text st' = (true, out, st').
Proof.
  intros H. apply translate_log in H as (k & _ & _ & _ & _ & _ & Hc & _).
  unfold _translate_with_retries. by rewrite Hc.
Qed.


(** [X9]: on a cache of stripped, non-empty translations a successful call
    returns such a translation, keeps the cache such, and has sent the text
    at most three times, never when the text was cached. *)
Theorem translate_success (text : str) (st : State) (out : str) (st' : State) :
  cache_ok (cache st) ->
  _translate_with_retries text st = (true, out, st') ->
  out <> [] /\ strip out = out /\ cache_ok (cache st')
  /\ exists k,
       k <= 3 /\ requests st' = requests st ++ replicate k text
       /\ (is_Some (cache st !! text) -> k = 0).
Proof.
  intros Hok H.
  apply translate_log in H as (k & Hk & Hr & _ & _ & Hc' & _ & Hout & Hhit).
  destruct (Hout Hok) as [? ?]. split_and!; try done; [by apply Hc'|].
  exists k. split_and!; try done. intros Hs. by destruct (Hhit Hs).
Qed.

(** ** What the run sends *)

Local Open Scope Z_scope.

Lemma entry_step_requests (P : str -> Prop) (o : str) (t : json) (m m' : dict)
    (st st' : State) (fl : flow) :
  entry_step o t m st (m', st', fl) ->
  (is_empty_value t = true -> fill_conditions o -> P (mask o).1) ->
  requests_ok P st -> requests_ok P st'.
Proof.
  unfold requests_ok. intros Hstep HP [Hlen Hall].
  inversion Hstep; subst; try done;
    match goal with H : _translate_with_retries _ _ = _ |- _ =>
      apply translate_log in H as (k & Hk & Hr & Hs & _)
    end;
    simpl in *; rewrite Hr, Hs; simpl;
    (split;
     [rewrite length_app, length_replicate; lia
     |apply Forall_app; split; [done|];
      apply Forall_replicate, HP; done]).
Qed.

Lemma fill_mapping_requests (P : str -> Prop) (items m : dict) (st : State) :
  (forall o t, (o, t) ∈ items -> is_empty_value t = true ->
               fill_conditions o -> P (mask o).1) ->
  requests_ok P st -> requests_ok P (fill_mapping items m st).2.
Proof.
  revert m st; induction items as [|[o t] items IH]; intros m st HP H; [done|].
  cbn [fill_mapping]. pose proof (fill_entry_step o t m st) as Hstep.
  destruct (fill_entry o t m st) as [[m' st'] fl].
  eapply entry_step_requests in Hstep; [|by apply HP; left|done].
  destruct fl; [|done]. apply IH; [|done].
  intros o' t' Hin. apply HP. by right.
Qed.

Lemma count_empties_requests (P : str -> Prop) (mapping : dict) (st : State) :
  requests_ok P st -> requests_ok P (count_empties mapping st).
Proof. rewrite count_empties_frame. unfold requests_ok. simpl. done. Qed.

Lemma fill_document_requests (data0 rest : dict) (st : State) :
  rest ⊆ data0 ->
  requests_ok (request_of data0) st ->
  requests_ok (request_of data0)
    (fill_document (effective_prefixes args) rest st).2.
Proof.
  revert st; induction rest as [|[fp v] rest IH]; intros st Hsub H; [done|].
  assert (rest ⊆ data0) as Hsub' by (intros e He; apply Hsub; by right).
  assert (forall st0, requests_ok (request_of data0) st0 ->
            requests_ok (request_of data0)
              (let '(rest', st1) := fill_document (effective_prefixes args) rest st0 in
               ((fp, v) :: rest', st1)).2) as Hskip.
  { intros st0 H0. specialize (IH st0 Hsub' H0).
    by destruct (fill_document (effective_prefixes args) rest st0). }
  destruct v as [| | | | |items|mapping]; try by apply Hskip.
  cbn [fill_document].
  destruct (_path_whitelisted fp (effective_prefixes args)) eqn:Hwl; cbn [negb].
  - pose proof (fill_mapping_requests (request_of data0) mapping mapping st) as HM.
    destruct (fill_mapping mapping mapping st) as [mapping' st'].
    assert (requests_ok (request_of data0) st') as H'.
    { apply HM; [|done]. intros o t Hin Hempty Hcond.
      exists fp, mapping, o, t. split_and!; try done. apply Hsub. left. }
    destruct (arg_max args <=? filled_local st'); [done|].
    specialize (IH st' Hsub' H').
    by destruct (fill_document (effective_prefixes args) rest st').
  - apply Hskip. by apply count_empties_requests.
Qed.

(** [X10]: the run sends at most three requests per eligible entry, and every
    text it sends is the masked original of an entry with an empty value,
    under a whitelisted path, that is neither high-risk nor stopped by the
    uppercase rule. *)
Theorem requests_accounted (data : dict) :
  Z.of_nat (length (requests (main data).2)) <= 3 * eligible (stats (main data).2)
  /\ Forall (request_of data) (requests (main data).2).
Proof.
  apply (fill_document_requests data data State_init); [done|].
  split; [simpl; lia | constructor].
Qed.

(** ** What the run writes *)

(** [X11]: a value of the output that differs from the input value at its place
    is a string that is not empty, has no white space around it, has a
    Chinese character and holds no token prefix. *)
Theorem written_values_clean (data : dict) (i : nat) (file_path : str)
    (m m' : dict) (j : nat) (original : str) (v v' : json) :
  data !! i = Some (file_path, JObj m) ->
  m !! j = Some (original, v) ->
  (main data).1 !! i = Some (file_path, JObj m') ->
  m' !! j = Some (original, v') ->
  v' <> v ->
  exists w,
    v' = JStr w /\ w <> [] /\ strip w = w /\ has_chinese w = true
    /\ contains (py "__PH") w = false.
Proof.
  intros Hi Hj Hi' Hj' Hne.
  destruct (run_mapping data i file_path m Hi) as (m1 & Hi1 & HF & _).
  rewrite Hi' in Hi1. injection Hi1 as <-.
  destruct (frame_entry m m' j original v HF Hj) as (v1 & Hj1 & Hv).
  rewrite Hj' in Hj1. injection Hj1 as <-.
  destruct Hv as [-> | (_ & _ & out & unmasked & Hun & Hzh & ->)]; [done|].
  exists (strip unmasked). split_and!; try done.
  - intros E. rewrite E in Hzh. done.
  - apply strip_idempotent.
  - apply unmask_from_result in Hun. apply not_true_iff_false. intros Hc.
    apply contains_strip in Hc. congruence.
Qed.

(** ** Documents with nothing to fill *)

Lemma fill_mapping_nothing (items m : dict) (st : State) :
  Forall (fun kv => is_empty_value kv.2 = false) items ->
  fill_mapping items m st = (m, st).
Proof.
  induction 1 as [|[o t] items Ht _ IH]; [done|].
  cbn [fill_mapping]. unfold fill_entry. simpl in Ht. rewrite Ht. cbn [negb].
  exact IH.
Qed.

Lemma count_empties_nothing (mapping : dict) (st : State) :
  Forall (fun kv => is_empty_value kv.2 = false) mapping ->
  count_empties mapping st = st.
Proof.
  induction 1 as [|[o t] items Ht _ IH]; [done|].
  simpl in *. by rewrite Ht.
Qed.

Lemma fill_document_nothing (prefixes : list str) (data : dict) (st : State) :
  no_empty_values data -> fill_document prefixes data st = (data, st).
Proof.
  unfold no_empty_values. induction 1 as [|[fp v] data Hv _ IH]; [done|].
  destruct v as [| | | | |items|mapping]; cbn [fill_document];
    try (by rewrite IH).
  simpl in Hv. destruct (_path_whitelisted fp prefixes); cbn [negb].
  - rewrite fill_mapping_nothing by done.
    rewrite IH. by destruct (arg_max args <=? filled_local st).
  - rewrite count_empties_nothing by done. by rewrite IH.
Qed.

(** [X12]: a document in which no mapping has an empty value comes out as it went
    in: no request is sent, nothing is cached and every counter stays 0,
    whatever the arguments. *)
Theorem nothing_to_fill (data : dict) :
  no_empty_values data -> main data = (data, State_init).
Proof. apply fill_document_nothing. Qed.

(** ** A limit of zero or less *)






(** ** Runs that the limit does not stop *)

Lemma empty_values_cons (k : str) (v : json) (items : dict) :
  empty_values ((k, v) :: items)
  = (if is_empty_value v then 1 else 0) + empty_values items.
Proof. unfold empty_values. simpl. destruct (is_empty_value v); simpl; lia. Qed.

Lemma entry_step_scan (o : str) (t : json) (m m' : dict) (st st' : State)
    (fl : flow) :
  entry_step o t m st (m', st', fl) ->
  scanned_empty (stats st')
  = scanned_empty (stats st) + (if is_empty_value t then 1 else 0)
  /\ (fl = Break -> arg_max args <= filled_local st').
Proof.
  intros Hstep.
  inversion Hstep; subst;
    try match goal with H : _translate_with_retries _ _ = _ |- _ =>
      apply translate_log in H as (k & _ & _ & Hs & Hf & _)
    end;
    repeat match goal with H : is_empty_value _ = _ |- _ => rewrite H end;
    simpl in *; try rewrite Hs; simpl; try (split; [lia | done]).
  split; [lia|].
  destruct (Z.leb_spec (arg_max args) (filled_local st1 + 1)); [|done].
  intros _. lia.
Qed.

Lemma fill_mapping_scan (items m : dict) (st : State) :
  arg_max args <= filled_local (fill_mapping items m st).2
  \/ scanned_empty (stats (fill_mapping items m st).2)
     = scanned_empty (stats st) + empty_values items.
Proof.
  revert m st; induction items as [|[o t] items IH]; intros m st.
  - right. unfold empty_values. simpl. lia.
  - cbn [fill_mapping]. pose proof (fill_entry_step o t m st) as Hstep.
    destruct (fill_entry o t m st) as [[m' st'] fl].
    apply entry_step_scan in Hstep as [Hscan Hbreak].
    destruct fl; [|left; by apply Hbreak].
    destruct (IH m' st') as [? | Hs]; [by left|].
    right. rewrite Hs, Hscan, empty_values_cons. lia.
Qed.

Lemma fill_document_scan (prefixes : list str) (data : dict) (st : State) :
  arg_max args <= filled_local (fill_document prefixes data st).2
  \/ scanned_empty (stats (fill_document prefixes data st).2)
     = scanned_empty (stats st) + total_empties data.
Proof.
  revert st; induction data as [|[fp v] data IH]; intros st.
  - right. simpl. lia.
  - assert (forall st0,
              arg_max args
              <= filled_local
                   (let '(rest, st1) := fill_document prefixes data st0 in
                    ((fp, v) :: rest, st1)).2
              \/ scanned_empty (stats
                   (let '(rest, st1) := fill_document prefixes data st0 in
                    ((fp, v) :: rest, st1)).2)
                 = scanned_empty (stats st0) + total_empties data) as Hskip.
    { intros st0. specialize (IH st0).
      by destruct (fill_document prefixes data st0). }
    destruct v as [| | | | |items|mapping]; try by apply Hskip.
    cbn [fill_document total_empties].
    destruct (_path_whitelisted fp prefixes); cbn [negb].
    + pose proof (fill_mapping_scan mapping mapping st) as HM.
      destruct (fill_mapping mapping mapping st) as [mapping' st'].
      cbn [snd] in HM.
      destruct (Z.leb_spec (arg_max args) (filled_local st')); [by left|].
      destruct HM as [? | HM]; [lia|].
      specialize (IH st'). destruct (fill_document prefixes data st').
      destruct IH as [? | IH]; [by left|]. right. simpl in *. lia.
    + destruct (Hskip (count_empties mapping st)) as [? | Hs]; [by left|].
      right. rewrite Hs, count_empties_frame. simpl. lia.
Qed.

(** [X14]: a run that ends below the limit has scanned every empty value of every
    mapping of the document, whitelisted or not. *)
Theorem scan_complete (data : dict) :
  filled_local (main data).2 < arg_max args ->
  scanned_empty (stats (main data).2) = total_empties data.
Proof.
  intros Hlt.
  destruct (fill_document_scan (effective_prefixes args) data State_init)
    as [? | Hs]; [unfold main in Hlt; lia|].
  exact Hs.
Qed.

(** ** Bounds on the statistics *)

Lemma empty_values_nonneg (mapping : dict) : 0 <= empty_values mapping.
Proof. unfold empty_values. lia. Qed.

Lemma total_empties_nonneg (data : dict) : 0 <= total_empties data.
Proof.
  induction data as [|[fp v] data IH]; simpl; [lia|].
  destruct v; try done. pose proof (empty_values_nonneg members). lia.
Qed.

Lemma entry_step_nonneg (o : str) (t : json) (m m' : dict) (st st' : State)
    (fl : flow) :
  entry_step o t m st (m', st', fl) ->
  counters_nonneg (stats st) -> counters_nonneg (stats st').
Proof.
  unfold counters_nonneg. intros Hstep H.
  inversion Hstep; subst; try done;
    try match goal with H : _translate_with_retries _ _ = _ |- _ =>
      apply translate_log in H as (k & _ & _ & Hs & _)
    end;
    simpl in *; try rewrite Hs; simpl; lia.
Qed.

Lemma fill_mapping_bounds (items m : dict) (st : State) :
  counters_nonneg (stats st) ->
  counters_nonneg (stats (fill_mapping items m st).2)
  /\ scanned_empty (stats (fill_mapping items m st).2)
     <= scanned_empty (stats st) + empty_values items.
Proof.
  revert m st; induction items as [|[o t] items IH]; intros m st H.
  - split; [done|]. unfold empty_values. simpl. lia.
  - cbn [fill_mapping]. pose proof (fill_entry_step o t m st) as Hstep.
    destruct (fill_entry o t m st) as [[m' st'] fl].
    pose proof (entry_step_nonneg _ _ _ _ _ _ _ Hstep H) as H'.
    apply entry_step_scan in Hstep as [Hscan _].
    rewrite empty_values_cons.
    destruct fl.
    + destruct (IH m' st' H') as [? ?]. split; [done | lia].
    + split; [done|]. pose proof (empty_values_nonneg items). simpl. lia.
Qed.

Lemma fill_document_bounds (prefixes : list str) (data : dict) (st : State) :
  counters_nonneg (stats st) ->
  counters_nonneg (stats (fill_document prefixes data st).2)
  /\ scanned_empty (stats (fill_document prefixes data st).2)
     <= scanned_empty (stats st) + total_empties data.
Proof.
  revert st; induction data as [|[fp v] data IH]; intros st H.
  - split; [done | simpl; lia].
  - assert (forall st0, counters_nonneg (stats st0) ->
              counters_nonneg (stats
                (let '(rest, st1) := fill_document prefixes data st0 in
                 ((fp, v) :: rest, st1)).2)
              /\ scanned_empty (stats
                   (let '(rest, st1) := fill_document prefixes data st0 in
                    ((fp, v) :: rest, st1)).2)
                 <= scanned_empty (stats st0) + total_empties data) as Hskip.
    { intros st0 H0. specialize (IH st0 H0).
      by destruct (fill_document prefixes data st0). }
    destruct v as [| | | | |items|mapping]; try by apply Hskip.
    cbn [fill_document total_empties].
    pose proof (empty_values_nonneg mapping) as Hm.
    pose proof (total_empties_nonneg data) as Hd.
    destruct (_path_whitelisted fp prefixes); cbn [negb].
    + destruct (fill_mapping_bounds mapping mapping st H) as [HM Hs].
      destruct (fill_mapping mapping mapping st) as [mapping' st'].
      cbn [snd] in *.
      destruct (arg_max args <=? filled_local st'); [split; [done | simpl; lia]|].
      specialize (IH st' HM). destruct (fill_document prefixes data st').
      destruct IH as [? ?]. split; [done | simpl in *; lia].
    + rewrite count_empties_frame.
      destruct (Hskip (skip_not_whitelisted (empty_values mapping) st))
        as [Hn Hs].
      { unfold counters_nonneg in *. simpl. lia. }
      split; [done|]. simpl in Hs. lia.
Qed.

(** [X15]: at the end of every run no counter is negative and
    filled <= eligible <= scanned_empty <= the number of empty values in
    the mappings of the document. *)
Theorem counters_bounded (data : dict) :
  counters_nonneg (stats (main data).2)
  /\ filled (stats (main data).2) <= eligible (stats (main data).2)
  /\ eligible (stats (main data).2) <= scanned_empty (stats (main data).2)
  /\ scanned_empty (stats (main data).2) <= total_empties data.
Proof.
  destruct (fill_document_bounds (effective_prefixes args) data State_init)
    as [Hn Hs]; [unfold counters_nonneg; simpl; lia|].
  pose proof (fill_document_partition (effective_prefixes args) data State_init
                State_init_partition) as [Hp1 Hp2].
  unfold main. split; [done|]. unfold counters_nonneg in Hn. simpl in Hs. lia.
Qed.

End Pass.

(** * The sample run *)

Abbreviation sample_run :=
  (main ascii_only ascii_only sample_service sample_args).
Abbreviation sample_entry :=
  (fill_entry ascii_only ascii_only sample_service sample_args).

Lemma high_risk_never_translated_witness :
  (forall mapping st, exists st',
      sample_entry (py "Cancel") JNull mapping st = (mapping, st', Continue)
      /\ requests st' = requests st /\ cache st' = cache st)
  /\ exists m',
       (sample_run sample_data).1 !! 0%nat
       = Some (py "zed/crates/zed/src/a.rs", JObj m')
       /\ m' !! 1%nat = Some (py "Cancel", JNull).
Proof.
  apply (high_risk_never_translated ascii_only ascii_only sample_service
           sample_args sample_data 0 (py "zed/crates/zed/src/a.rs")
           sample_mapping 1 (py "Cancel") JNull).
  - reflexivity.
  - reflexivity.
  - apply classified_high_risk_checked. right. vm_compute. reflexivity.
Defined.

Lemma mask_unmask_roundtrip_witness :
  _unmask_placeholders
    (_mask_placeholders ascii_only (py "Close {x} of PHP in %d s")).1
    (_mask_placeholders ascii_only (py "Close {x} of PHP in %d s")).2
  = (true, py "Close {x} of PHP in %d s").
Proof.
  apply (mask_unmask_roundtrip ascii_only (py "Close {x} of PHP in %d s")).
  vm_compute. reflexivity.
Defined.

(** [C2] as stated fails: a text that holds the token prefix is masked to
    itself, and unmasking then reports a failure. *)
Lemma mask_unmask_counterexample :
  _unmask_placeholders (_mask_placeholders ascii_only (py "__PH")).1
    (_mask_placeholders ascii_only (py "__PH")).2
  = (false, py "__PH").
Proof. vm_compute. reflexivity. Qed.

(** The same for any interpreter: the text has no percent sign, so the
    table of digits is not consulted. *)
Lemma mask_unmask_prefix_fails (unicode_decimal : char -> bool) :
  _unmask_placeholders (_mask_placeholders unicode_decimal (py "__PH")).1
    (_mask_placeholders unicode_decimal (py "__PH")).2
  = (false, py "__PH").
Proof. reflexivity. Qed.

(** Without any underscore in the text: the letters PH0 between two tokens
    read like the token 0, whose placeholder is then put in twice, and the
    token 1 is no longer found. *)
Lemma mask_unmask_PH_digit_fails (unicode_decimal : char -> bool) :
  _unmask_placeholders
    (_mask_placeholders unicode_decimal (py "{a}{b}PH0{c}")).1
    (_mask_placeholders unicode_decimal (py "{a}{b}PH0{c}")).2
  = (false, py "__PH0____PH1__PH0__PH2__").
Proof. reflexivity. Qed.

Lemma nonempty_values_kept_witness :
  exists m',
    (sample_run sample_data).1 !! 0%nat
    = Some (py "zed/crates/zed/src/a.rs", JObj m')
    /\ m' !! 3%nat = Some (py "Save it", JStr (py "x")).
Proof.
  apply (nonempty_values_kept ascii_only ascii_only sample_service sample_args
           sample_data 0 (py "zed/crates/zed/src/a.rs") sample_mapping 3
           (py "Save it") (JStr (py "x"))).
  - reflexivity.
  - apply (bool_decide_unpack _). vm_compute. exact I.
  - reflexivity.
  - reflexivity.
Defined.

Lemma not_whitelisted_untouched_witness :
  (sample_run sample_data).1 !! 1%nat
  = Some (py "docs/other.rs", JObj [(py "Open File", JStr [])]).
Proof.
  apply (not_whitelisted_untouched ascii_only ascii_only sample_service
           sample_args sample_data 1 (py "docs/other.rs")
           (JObj [(py "Open File", JStr [])])).
  - reflexivity.
  - vm_compute. reflexivity.
Defined.




(** The entry filled in the sample mapping, read at its place: the
    endpoint's text with the placeholder put back. *)
Example filled_value_sample :
  NoDup (keys sample_mapping)
  /\ sample_mapping !! 2%nat = Some (py "Close {x} now", JStr [])
  /\ (sample_entry (py "Close {x} now") (JStr []) sample_mapping State_init).1.1
     !! 2%nat
     = Some (py "Close {x} now", JStr (py "Close {x} now" ++ [20013%N; 25991%N])).
Proof.
  split_and!.
  - apply (bool_decide_unpack _). vm_compute. exact I.
  - reflexivity.
  - vm_compute. reflexivity.
Qed.

(** The risk filter on a few strings: a file path, an operator, a debug
    format, a number, punctuation, a CamelCase token, then two labels that
    pass. *)
Example is_high_risk_samples :
  List.map (_is_high_risk ascii_only ascii_only)
    [py "src/main.rs"; py "a -> b"; py "{:?} failed"; py "123.4"; py "...";
     py "Cancel"; py "Open File"; py "OK"]
  = [true; true; true; true; true; true; false; false].
Proof. vm_compute. reflexivity. Qed.

(** Masking numbers the placeholders in the order of the text. *)
Example mask_sample :
  _mask_placeholders ascii_only (py "Open {x} and %d or ${y}")
  = (py "Open __PH0__ and __PH1__ or __PH2__", [py "{x}"; py "%d"; py "${y}"]).
Proof. vm_compute. reflexivity. Qed.

(** The sample run fills two entries and stops at the limit. *)
Example sample_run_stats :
  stats (sample_run sample_data).2 = mkStats 3 2 2 1 0 0 0 0
  /\ requests (sample_run sample_data).2
     = [py "Open File"; py "Close __PH0__ now"; py "Close __PH0__ now"].
Proof. vm_compute. split; reflexivity. Qed.

(** * Samples of the further properties *)

Lemma single_word_with_lowercase_high_risk_witness :
  _is_high_risk ascii_only ascii_only (py " Save") = true.
Proof.
  apply (single_word_with_lowercase_high_risk ascii_only ascii_only (py " Save")).
  - vm_compute. reflexivity.
  - vm_compute. reflexivity.
Defined.

Lemma is_high_risk_padding_witness :
  _is_high_risk ascii_only ascii_only (py "  " ++ py "Open File" ++ [10%N])
  = _is_high_risk ascii_only ascii_only (py "Open File").
Proof.
  apply (is_high_risk_padding ascii_only ascii_only (py "  ") (py "Open File")
           [10%N]).
  - repeat constructor.
  - repeat constructor.
Defined.

Lemma safe_single_words_subsumed_witness :
  _uppercase_start (py " Cancel ") = true
  /\ (strip (py " Cancel ") <> py "OK"
      -> _is_high_risk ascii_only ascii_only (py " Cancel ") = true).
Proof.
  apply (safe_single_words_subsumed ascii_only ascii_only (py " Cancel ")).
  apply (bool_decide_unpack _). vm_compute. exact I.
Defined.

Lemma mask_without_placeholder_start_witness :
  _mask_placeholders ascii_only (py "Open File") = (py "Open File", []).
Proof.
  apply (mask_without_placeholder_start ascii_only (py "Open File")).
  vm_compute. reflexivity.
Defined.

Lemma unmask_result_witness : contains (py "__PH") (py "{a} x") = false.
Proof.
  apply (unmask_result (py "__PH0__ x") [py "{a}"] true (py "{a} x")).
  vm_compute. reflexivity.
Defined.

Lemma translate_memoised_witness :
  _translate_with_retries sample_service (py "Open File")
    (_translate_with_retries sample_service (py "Open File") State_init).2
  = (true,
     (_translate_with_retries sample_service (py "Open File") State_init).1.2,
     (_translate_with_retries sample_service (py "Open File") State_init).2).
Proof.
  apply (translate_memoised sample_service (py "Open File") State_init).
  vm_compute. reflexivity.
Defined.


Lemma translate_success_witness :
  (_translate_with_retries sample_service (py "Open File") State_init).1.2 <> []
  /\ strip (_translate_with_retries sample_service (py "Open File") State_init).1.2
     = (_translate_with_retries sample_service (py "Open File") State_init).1.2
  /\ cache_ok
       (cache (_translate_with_retries sample_service (py "Open File") State_init).2)
  /\ exists k,
       (k <= 3)%nat
       /\ requests
            (_translate_with_retries sample_service (py "Open File") State_init).2
          = requests State_init ++ replicate k (py "Open File")
       /\ (is_Some (cache State_init !! py "Open File") -> k = 0%nat).
Proof.
  apply (translate_success sample_service (py "Open File") State_init).
  - intros text out H. simpl in H. rewrite lookup_empty in H. discriminate.
  - vm_compute. reflexivity.
Defined.

Lemma written_values_clean_witness :
  exists w,
    JStr (py "Open File" ++ [20013%N; 25991%N]) = JStr w
    /\ w <> [] /\ strip w = w /\ has_chinese w = true
    /\ contains (py "__PH") w = false.
Proof.
  apply (written_values_clean ascii_only ascii_only sample_service sample_args
           sample_data 0 (py "zed/crates/zed/src/a.rs") sample_mapping
           (dict_set (py "Close {x} now")
              (JStr (py "Close {x} now" ++ [20013%N; 25991%N]))
              (dict_set (py "Open File")
                 (JStr (py "Open File" ++ [20013%N; 25991%N])) sample_mapping))
           0 (py "Open File") (JStr [])).
  - reflexivity.
  - reflexivity.
  - vm_compute. reflexivity.
  - vm_compute. reflexivity.
  - discriminate.
Defined.

Lemma nothing_to_fill_witness :
  main ascii_only ascii_only sample_service sample_args complete_data
  = (complete_data, State_init).
Proof.
  apply (nothing_to_fill ascii_only ascii_only sample_service sample_args
           complete_data).
  repeat constructor.
Defined.


(** With a limit of 0 the sample run fills its first entry. *)
Example zero_max_fills_one :
  filled (stats (main ascii_only ascii_only sample_service zero_args sample_data).2)
  = 1.
Proof. vm_compute. reflexivity. Qed.

Lemma scan_complete_witness :
  scanned_empty
    (stats (main ascii_only ascii_only sample_service roomy_args sample_data).2)
  = total_empties sample_data.
Proof.
  apply (scan_complete ascii_only ascii_only sample_service roomy_args
           sample_data).
  vm_compute. reflexivity.
Defined.
